(** * odooup.whitelist: sparse-checkout whitelisting of a module dependency tree

    A shallow embedding of [src/odooup/whitelist.py].  Text is modelled as
    [string], every character standing for one code point below 256; the
    file system as a finite map from absolute paths to the text of the
    regular file stored there; Python sets as [gset string] together with an
    iteration order that the interpreter chooses. *)

From stdpp Require Import gmap strings list fin_maps sets.
From Stdlib Require Import Ascii.
From Stdlib Require String.

(** ** Python [str] operations used by the source *)

Module PyStr.

Definition LF : ascii := "010"%char.
Definition CR : ascii := "013"%char.
Definition nl : string := String LF "".

(** The characters [str.splitlines] breaks a line at (code points below
    256): LF, VT, FF, CR, FS, GS, RS and NEL. *)
Definition line_boundary (c : ascii) : bool :=
  existsb (Ascii.eqb c)
    [LF; "011"%char; "012"%char; CR; "028"%char; "029"%char; "030"%char;
     "133"%char].

(** [s.splitlines()]: the lines of [s] without their terminators; CR LF
    counts as one terminator, and a terminator at the very end opens no
    further line. *)
Fixpoint splitlines (s : string) : list string :=
  match s with
  | EmptyString => []
  | String c s' =>
      if line_boundary c then
        "" :: (if Ascii.eqb c CR then
                 match s' with
                 | String c' s'' =>
                     if Ascii.eqb c' LF then splitlines s'' else splitlines s'
                 | EmptyString => []
                 end
               else splitlines s')
      else
        match splitlines s' with
        | [] => [String c ""]
        | l :: ls => String c l :: ls
        end
  end.

(** Where the next line starts after the terminator [c]. *)
Definition after_break (c : ascii) (s : string) : string :=
  if Ascii.eqb c CR then
    match s with
    | String c' s' => if Ascii.eqb c' LF then s' else s
    | EmptyString => s
    end
  else s.

(** What [read()] returns for a file opened in text mode: CR LF and a lone
    CR both come out as LF. *)
Fixpoint universal_newlines (s : string) : string :=
  match s with
  | EmptyString => ""
  | String c s' =>
      if Ascii.eqb c CR then
        String LF
          (match s' with
           | String c' s'' =>
               if Ascii.eqb c' LF then universal_newlines s''
               else universal_newlines s'
           | EmptyString => ""
           end)
      else String c (universal_newlines s')
  end.

(** [sep.join(xs)] *)
Fixpoint join (sep : string) (xs : list string) : string :=
  match xs with
  | [] => ""
  | x :: xs' =>
      match xs' with
      | [] => x
      | _ :: _ => x +:+ sep +:+ join sep xs'
      end
  end.

(** What follows the prefix [p] in [s], when [s] starts with [p]. *)
Fixpoint strip_prefix (p s : string) : option string :=
  match p, s with
  | EmptyString, _ => Some s
  | String a p', String b s' =>
      if Ascii.eqb a b then strip_prefix p' s' else None
  | String _ _, EmptyString => None
  end.

(** [s.startswith(p)] *)
Definition startswith (p s : string) : bool :=
  match strip_prefix p s with Some _ => true | None => false end.

(** [sub in s] *)
Fixpoint contains (sub s : string) : bool :=
  startswith sub s ||
  match s with
  | EmptyString => false
  | String _ s' => contains sub s'
  end.

(** [s.partition(sep)] for a separator that is not empty: split at the
    first occurrence of [sep]; when there is none, [(s, "", "")]. *)
Fixpoint partition (sep s : string) : string * string * string :=
  match strip_prefix sep s with
  | Some after => ("", sep, after)
  | None =>
      match s with
      | EmptyString => ("", "", "")
      | String c s' =>
          let '(before, found, after) := partition sep s' in
          (String c before, found, after)
      end
  end.

(** [s.lstrip(".")] *)
Fixpoint lstrip_dots (s : string) : string :=
  match s with
  | String "."%char s' => lstrip_dots s'
  | _ => s
  end.

(** [s.endswith("/")] *)
Fixpoint endswith_slash (s : string) : bool :=
  match s with
  | EmptyString => false
  | String c EmptyString => Ascii.eqb c "/"%char
  | String _ s' => endswith_slash s'
  end.

(** A line that [splitlines] leaves in one piece. *)
Fixpoint single_line (s : string) : bool :=
  match s with
  | EmptyString => true
  | String c s' => negb (line_boundary c) && single_line s'
  end.

(** Text that is empty or ends in LF: whatever is appended to it starts a
    new line. *)
Fixpoint terminated (s : string) : bool :=
  match s with
  | EmptyString => true
  | String c EmptyString => Ascii.eqb c LF
  | String _ s' => terminated s'
  end.

End PyStr.

(** ** [posixpath] operations used by the source *)

Module PosixPath.

Definition slash : ascii := "/"%char.

(** [(p[:i], p[i:])] for [i = p.rfind("/") + 1] *)
Fixpoint split_last_slash (p : string) : string * string :=
  match p with
  | EmptyString => ("", "")
  | String c p' =>
      match split_last_slash p' with
      | (EmptyString, t) =>
          if Ascii.eqb c slash then (String c "", t) else ("", String c t)
      | (h, t) => (String c h, t)
      end
  end.

Fixpoint rstrip_slash (s : string) : string :=
  match s with
  | EmptyString => ""
  | String c s' =>
      match rstrip_slash s' with
      | EmptyString => if Ascii.eqb c slash then "" else String c ""
      | r => String c r
      end
  end.

Fixpoint all_slashes (s : string) : bool :=
  match s with
  | EmptyString => true
  | String c s' => Ascii.eqb c slash && all_slashes s'
  end.

Definition basename (p : string) : string := snd (split_last_slash p).

Definition dirname (p : string) : string :=
  let head := fst (split_last_slash p) in
  if negb (String.eqb head "") && negb (all_slashes head)
  then rstrip_slash head else head.

(** [os.path.join(a, b)] *)
Definition join (a b : string) : string :=
  if PyStr.startswith "/" b then b
  else if String.eqb a "" || PyStr.endswith_slash a then a +:+ b
  else a +:+ "/" +:+ b.

(** [p.split("/")] *)
Fixpoint split_slash (s : string) : list string :=
  match s with
  | EmptyString => [""]
  | String c s' =>
      if Ascii.eqb c slash then "" :: split_slash s'
      else
        match split_slash s' with
        | [] => [String c ""]
        | x :: xs => String c x :: xs
        end
  end.

Definition norm_step (initial_slashes : nat) (new_comps : list string)
    (comp : string) : list string :=
  if String.eqb comp "" || String.eqb comp "." then new_comps
  else if negb (String.eqb comp "..")
          || (Nat.eqb initial_slashes 0 && bool_decide (new_comps = []))
          || (negb (bool_decide (new_comps = []))
              && String.eqb (List.last new_comps "") "..")
  then new_comps ++ [comp]
  else removelast new_comps.

Definition normpath (path : string) : string :=
  if String.eqb path "" then "."
  else
    let initial_slashes :=
      if PyStr.startswith "/" path then
        if PyStr.startswith "//" path && negb (PyStr.startswith "///" path)
        then 2 else 1
      else 0 in
    let comps := fold_left (norm_step initial_slashes) (split_slash path) [] in
    let p := String.concat "" (replicate initial_slashes "/") +:+ PyStr.join "/" comps in
    if String.eqb p "" then "." else p.

(** [os.path.abspath(path)] in the working directory [cwd] *)
Definition abspath (cwd path : string) : string :=
  normpath (if PyStr.startswith "/" path then path else join cwd path).

End PosixPath.

(** ** The module graph, the file system and what a run leaves behind *)

(** A manifest as far as the source reads it: [manifest.get("auto_install")]
    (absent counts as false) and [manifest.get("depends", [])]. *)
Record Manifest := { auto_install : bool; depends : list string }.

Record ModuleNode := { namespace : string; manifest : Manifest }.

(** The graph of [get_graph]: its nodes in iteration order, each with its
    attribute dictionary ([None] for the empty dictionary of a module that is
    only referenced), and its directed edges. *)
Record Graph := {
  nodes : list (string * option ModuleNode);
  edges : list (string * string)
}.

(** [for module in g] *)
Definition graph_iter (g : Graph) : list string := map fst (nodes g).

(** [g.node[module]], for a module of the graph *)
Definition g_node (g : Graph) (module : string) : option ModuleNode :=
  match List.find (fun e => String.eqb (fst e) module) (nodes g) with
  | Some (_, node) => node
  | None => None
  end.

Abbreviation Files := (gmap string string).

Definition isfile (fs : Files) (path : string) : bool :=
  match fs !! path with Some _ => true | None => false end.

(** [f.read().splitlines()] of a file that exists *)
Definition read_lines (fs : Files) (path : string) : list string :=
  PyStr.splitlines (PyStr.universal_newlines (default "" (fs !! path))).

(** [open(path, "a").write(text)]: creates the file when it is missing *)
Definition append_file (fs : Files) (path text : string) : Files :=
  <[path := default "" (fs !! path) +:+ text]> fs.

Inductive event :=
| UnknownModule (module : string)
| MissingModule (module : string)
| MissingDependency (dep : string)
| DependencyInfo (module : string)
| PathLengthWarning (longest : list string)
| EnableSparseCheckout (ns : string)
| SymlinkSparseFile (ns : string)
| Appended (path text : string)
| Rewritten (path text : string).

Inductive exit_arg := ExitCode (code : Z) | ExitText (msg : string).

Inductive exn := NetworkXUnfeasible | FileNotFoundError (path : string).

Inductive outcome :=
| Returned
| UsageError (msg : string)
| Exit (arg : exit_arg)
| Uncaught (e : exn).

(** The status the process ends with: [sys.exit] of a string prints it and
    ends with 1, as an uncaught exception does; a usage error ends with 2. *)
Definition exit_status (o : outcome) : Z :=
  match o with
  | Returned => 0
  | UsageError _ => 2
  | Exit (ExitCode code) => code
  | Exit (ExitText _) => 1
  | Uncaught _ => 1
  end.

Record result := {
  res_outcome : outcome;
  res_files : Files;
  res_log : list event
}.

Definition DAG_PATH_LENGTH_WARNING_THRESHOLD : nat := 5.
Definition DOCKERIGNORE_PLACEHOLDER : string :=
  "# Autogenerated file content from here ... DO NOT MODIFY".

(** ** [networkx.ancestors] *)

Definition predecessors (g : Graph) (S : gset string) : gset string :=
  list_to_set (map fst (List.filter (fun e => bool_decide (snd e ∈ S)) (edges g))).

Fixpoint reach_back (g : Graph) (fuel : nat) (S : gset string) : gset string :=
  match fuel with
  | O => S
  | Datatypes.S n => reach_back g n (S ∪ predecessors g S)
  end.

(** All nodes with a path to [module], [module] itself apart; [None] stands
    for the [NetworkXError] raised when [module] is no node of the graph. *)
Definition ancestors (g : Graph) (module : string) : option (gset string) :=
  if bool_decide (module ∈ graph_iter g)
  then Some (reach_back g (length (edges g)) {[module]} ∖ {[module]})
  else None.

(** ** The functions of [whitelist.py] *)

Section Whitelist.

(** The working directory of the process. *)
Variable cwd : string.

(** The order in which this interpreter iterates over a set of strings. *)
Variable set_iter : gset string -> list string.

(** [networkx.dag_longest_path] of the subgraph induced by a set of nodes;
    [None] when the graph has a cycle and networkx raises. *)
Variable dag_longest_path : Graph -> gset string -> option (list string).

Definition _get_sparse_persistence_file (ns : string) : string :=
  PosixPath.abspath cwd
    (PosixPath.join (PosixPath.join ns "..") ("." +:+ PosixPath.basename ns)).

Definition _get_ns_from_sparse_persistence_file (ns_path : string) : string :=
  let '(_, found, after) := PyStr.partition "vendor" ns_path in
  let path := found +:+ after in
  PosixPath.join (PosixPath.dirname path)
                 (PyStr.lstrip_dots (PosixPath.basename path)).

(** The path [open(".dockerignore")] resolves to. *)
Definition dockerignore_path : string := PosixPath.abspath cwd ".dockerignore".

Definition _warn_path_length (g : Graph) (deps : gset string)
    : option (list event) :=
  match dag_longest_path g deps with
  | None => None
  | Some longest =>
      if Nat.ltb DAG_PATH_LENGTH_WARNING_THRESHOLD (length longest - 1)
      then Some [PathLengthWarning longest] else Some []
  end.

(** Lines 69 to 75: one turn of the loop over the graph. *)
Definition sparse_files_step (g : Graph) (fs : Files)
    (sparse_files : gset string) (module : string) : gset string :=
  match g_node g module with
  | None => sparse_files
  | Some node =>
      let ns_path := _get_sparse_persistence_file (namespace node) in
      if isfile fs ns_path then sparse_files ∪ {[ns_path]}
      else sparse_files
  end.

Definition _get_all_sparse_files (g : Graph) (fs : Files) : gset string :=
  fold_left (sparse_files_step g fs) (graph_iter g) ∅.

Definition _warn_missing_dependencies (g : Graph) : list event :=
  flat_map
    (fun module =>
       match g_node g module with
       | None => [DependencyInfo module]
       | Some _ => []
       end)
    (graph_iter g).

(** Lines 96 to 104: one turn of the first loop of the pass. *)
Definition scan_step (g : Graph) (fs : Files)
    (st : list string * list string) (module : string)
    : list string * list string :=
  let '(all_white_listed, auto_install_l) := st in
  match g_node g module with
  | None => st
  | Some node =>
      let ns_path := _get_sparse_persistence_file (namespace node) in
      (if isfile fs ns_path then all_white_listed
       else all_white_listed ++ [module],
       if auto_install (manifest node) then auto_install_l ++ [module]
       else auto_install_l)
  end.

(** Lines 93 to 104: the modules of namespaces without a whitelist file,
    and the auto-install modules. *)
Definition scan_modules (g : Graph) (fs : Files) : list string * list string :=
  fold_left (scan_step g fs) (graph_iter g) ([], []).

(** Lines 93 to 108: [all_white_listed] as the pass uses it. *)
Definition all_white_listed (g : Graph) (fs : Files) : list string :=
  fst (scan_modules g fs)
  ++ flat_map (read_lines fs) (set_iter (_get_all_sparse_files g fs)).

(** Lines 111 to 134: one turn of the loop over [auto_install]. *)
Definition auto_install_step (g : Graph) (all_white_listed : list string)
    (st : Files * bool * list event) (module : string)
    : Files * bool * list event :=
  let '(fs, state_change, log) := st in
  match g_node g module with
  | None => st
  | Some node =>
      let deps := depends (manifest node) in
      if negb (forallb (fun dep => bool_decide (dep ∈ all_white_listed)) deps)
      then st
      else
        let ns_path := _get_sparse_persistence_file (namespace node) in
        if negb (isfile fs ns_path) then st
        else
          let existing : gset string := list_to_set (read_lines fs ns_path) in
          if bool_decide (module ∈ existing) then st
          else
            let text := module +:+ PyStr.nl in
            (append_file fs ns_path text, true, log ++ [Appended ns_path text])
  end.

Definition _reconcile_auto_install (g : Graph) (fs : Files)
    : bool * Files * list event :=
  let awl := all_white_listed g fs in
  let auto_install_l := snd (scan_modules g fs) in
  let '(fs', state_change, log) :=
    fold_left (auto_install_step g awl) auto_install_l (fs, false, []) in
  (state_change, fs', log).

(** [while _reconcile_auto_install(g): pass], with [fuel] bounding the
    number of passes: [None] when the bound is reached. *)
Fixpoint reconcile_loop (fuel : nat) (g : Graph) (fs : Files)
    : option (Files * list event) :=
  match fuel with
  | O => None
  | S fuel' =>
      let '(state_change, fs', log) := _reconcile_auto_install g fs in
      if state_change then
        match reconcile_loop fuel' g fs' with
        | Some (fs'', log') => Some (fs'', log ++ log')
        | None => None
        end
      else Some (fs', log)
  end.

(** Lines 142 to 148: the fragment of one whitelist file. *)
Definition fragment (fs : Files) (file : string) : string :=
  let ns := _get_ns_from_sparse_persistence_file file in
  let ignore := [PosixPath.join ns "**"] in
  let existing : gset string := list_to_set (read_lines fs file) in
  let less :=
    map (fun l => "!" +:+ PosixPath.join ns l)
        (List.filter (fun l => negb (PyStr.contains "!setup" l))
                     (set_iter existing)) in
  PyStr.join PyStr.nl (ignore ++ less) +:+ PyStr.nl.

Definition dockerignore_snippet (g : Graph) (fs : Files) : string :=
  String.concat "" (map (fragment fs) (set_iter (_get_all_sparse_files g fs))).

(** Lines 154 to 157: the lines written back, up to the first one that
    contains the marker. *)
Fixpoint keep_until_marker (lines : list string) : string :=
  match lines with
  | [] => ""
  | line :: rest =>
      line +:+ PyStr.nl
      +:+ (if PyStr.contains DOCKERIGNORE_PLACEHOLDER line then ""
          else keep_until_marker rest)
  end.

(** [None] stands for the [FileNotFoundError] of [open(".dockerignore")]. *)
Definition reconcile_dockerignore_placeholder (g : Graph) (fs : Files)
    : option (Files * list event) :=
  let snippet := dockerignore_snippet g fs in
  match fs !! dockerignore_path with
  | None => None
  | Some content =>
      let lines := PyStr.splitlines (PyStr.universal_newlines content) in
      let text := keep_until_marker lines +:+ snippet in
      Some (<[dockerignore_path := text]> fs, [Rewritten dockerignore_path text])
  end.

(** [include.setdefault(ns, set()); include[ns] |= {dep}] on a dictionary
    kept in insertion order. *)
Fixpoint include_add (ns dep : string) (include : list (string * gset string))
    : list (string * gset string) :=
  match include with
  | [] => [(ns, {[dep]})]
  | (k, v) :: rest =>
      if String.eqb k ns then (k, v ∪ {[dep]}) :: rest
      else (k, v) :: include_add ns dep rest
  end.

(** Lines 211 to 226: one turn of the loop over [deps]. *)
Definition include_step (g : Graph) (skip_native : bool)
    (st : list (string * gset string) * bool * list event) (dep : string)
    : list (string * gset string) * bool * list event :=
  let '(include, fail, log) := st in
  match g_node g dep with
  | None => (include, true, log ++ [MissingDependency dep])
  | Some node =>
      let ns := namespace node in
      if skip_native && PyStr.contains "vendor/odoo" ns then st
      else (include_add ns dep include, fail, log)
  end.

(** Lines 209 to 226 *)
Definition build_include (g : Graph) (skip_native : bool) (module : string)
    (node : ModuleNode) (deps : gset string)
    : list (string * gset string) * bool * list event :=
  fold_left (include_step g skip_native) (set_iter deps)
            ([(namespace node, {[module]})], false, []).

(** Lines 231 to 245: one turn of the loop over [include.keys()]. *)
Definition seed_step (st : Files * list event) (entry : string * gset string)
    : Files * list event :=
  let '(fs, log) := st in
  let '(ns, modules) := entry in
  let ns_path := _get_sparse_persistence_file ns in
  let '(existing, log1) :=
    match fs !! ns_path with
    | Some content =>
        (list_to_set (PyStr.splitlines (PyStr.universal_newlines content))
           : gset string, [])
    | None => (∅, [SymlinkSparseFile ns])
    end in
  let should := modules ∪ {["!setup/**"]} in
  let missing := should ∖ existing in
  if bool_decide (missing = ∅) then (fs, log ++ EnableSparseCheckout ns :: log1)
  else
    let text := PyStr.join PyStr.nl (set_iter missing) +:+ PyStr.nl in
    (append_file fs ns_path text,
     log ++ EnableSparseCheckout ns :: log1 ++ [Appended ns_path text]).

Definition seed_whitelists (include : list (string * gset string)) (fs : Files)
    : Files * list event :=
  fold_left seed_step include (fs, []).

(** Lines 230 to 252 *)
Definition reconcile (fuel : nat) (g : Graph)
    (include : list (string * gset string)) (fs : Files) (log : list event)
    : option result :=
  let '(fs1, log1) := seed_whitelists include fs in
  match reconcile_loop fuel g fs1 with
  | None => None
  | Some (fs2, log2) =>
      match reconcile_dockerignore_placeholder g fs2 with
      | None =>
          Some {| res_outcome := Uncaught (FileNotFoundError dockerignore_path);
                  res_files := fs2; res_log := log ++ log1 ++ log2 |}
      | Some (fs3, log3) =>
          Some {| res_outcome := Returned; res_files := fs3;
                  res_log := log ++ log1 ++ log2 ++ log3
                             ++ _warn_missing_dependencies g |}
      end
  end.

(** The command: [inside_work_tree] is what [git rev-parse
    --is-inside-work-tree] answers, [g] the graph [get_graph] builds and
    [fs] the files on disk.  [None] only when [fuel] passes of the
    auto-install loop were not enough. *)
Definition whitelist (fuel : nat) (inside_work_tree : bool) (g : Graph)
    (fs : Files) (module : string) (skip_native : bool) : option result :=
  let stop o log :=
    Some {| res_outcome := o; res_files := fs; res_log := log |} in
  if negb inside_work_tree
  then stop (UsageError "You are not inside a work tree.") []
  else
    match ancestors g module with
    | None => stop (Exit (ExitCode 1)) [UnknownModule module]
    | Some deps =>
        match g_node g module with
        | None => stop (Exit (ExitCode 1)) [MissingModule module]
        | Some node =>
            match _warn_path_length g deps with
            | None => stop (Uncaught NetworkXUnfeasible) []
            | Some log0 =>
                if skip_native && PyStr.contains "vendor/odoo" (namespace node)
                then stop (Exit (ExitText "You have specified a native module while skipping native modules from whitelisting.")) log0
                else
                  let '(include, fail, log1) :=
                    build_include g skip_native module node deps in
                  if fail then stop (Exit (ExitCode 1)) (log0 ++ log1)
                  else reconcile fuel g include fs (log0 ++ log1)
            end
        end
    end.

End Whitelist.

(** ** Notions the statements use *)

Import PyStr.

(** What is known of the order in which an interpreter iterates over a set:
    it visits every element once.  Which order it is depends on the hash seed
    of the process, so two invocations of the command may differ in it. *)
Definition iteration_order (set_iter : gset string -> list string) : Prop :=
  forall X, set_iter X ≡ₚ elements X.

(** The whitelist file of [module]'s namespace, when it exists. *)
Definition sparse_path (cwd : string) (g : Graph) (fs : Files) (module : string)
    : option string :=
  match g_node g module with
  | Some node =>
      let ns_path := _get_sparse_persistence_file cwd (namespace node) in
      if isfile fs ns_path then Some ns_path else None
  | None => None
  end.

(** [module] is known and its namespace has no whitelist file. *)
Definition is_unsparse (cwd : string) (g : Graph) (fs : Files) (module : string)
    : bool :=
  match g_node g module with
  | Some node =>
      negb (isfile fs (_get_sparse_persistence_file cwd (namespace node)))
  | None => false
  end.

(** [module] is known and flagged auto-install. *)
Definition is_auto (g : Graph) (module : string) : bool :=
  match g_node g module with
  | Some node => auto_install (manifest node)
  | None => false
  end.


(** The three tests of lines 116 to 129 that let the pass append [module],
    given the list [awl] it took for [all_white_listed]. *)
Definition eligible (cwd : string) (g : Graph) (awl : list string) (fs : Files)
    (module : string) : bool :=
  match g_node g module with
  | None => false
  | Some node =>
      let ns_path := _get_sparse_persistence_file cwd (namespace node) in
      forallb (fun dep => bool_decide (dep ∈ awl)) (depends (manifest node))
      && isfile fs ns_path
      && negb (bool_decide (module ∈ read_lines fs ns_path))
  end.

(** The whitelist file of every namespace of the graph is empty or ends in
    LF, as every file is that only this program wrote. *)
Definition whitelists_terminated (cwd : string) (g : Graph) (fs : Files) : bool :=
  forallb
    (fun module =>
       match g_node g module with
       | Some node =>
           terminated
             (default "" (fs !! _get_sparse_persistence_file cwd (namespace node)))
       | None => true
       end)
    (graph_iter g).

(** No module name holds a line break. *)
Definition names_single_line (g : Graph) : bool :=
  forallb single_line (graph_iter g).

Definition set_single_line (X : gset string) : bool :=
  forallb single_line (elements X).



(** [fs'] comes from [fs] by appending entries to whitelist files of the
    graph's namespaces. *)
Record extends (cwd : string) (g : Graph) (fs fs' : Files) : Prop := {
  ext_isfile : forall p, isfile fs p = true -> isfile fs' p = true;
  ext_lines : forall p x, x ∈ read_lines fs p -> x ∈ read_lines fs' p;
  ext_other : forall p,
    (forall m node, g_node g m = Some node ->
       p <> _get_sparse_persistence_file cwd (namespace node)) ->
    fs' !! p = fs !! p;
  ext_terminated : whitelists_terminated cwd g fs' = true
}.

(** Two file systems that hold the same whitelist files for the graph. *)
Definition agree (cwd : string) (g : Graph) (fs fs' : Files) : Prop :=
  forall m node, g_node g m = Some node ->
    fs' !! _get_sparse_persistence_file cwd (namespace node)
    = fs !! _get_sparse_persistence_file cwd (namespace node).

(** The pattern line 240 always requires. *)
Definition SETUP : string := "!setup/**".

(** The substring lines 203 and 223 look for in a namespace. *)
Definition NATIVE : string := "vendor/odoo".

(** [should - existing] of line 241 for the entry [(ns, modules)]. *)
Definition missing_entries (cwd : string) (fs : Files) (ns : string)
    (modules : gset string) : gset string :=
  (modules ∪ {[SETUP]})
  ∖ list_to_set (read_lines fs (_get_sparse_persistence_file cwd ns)).

Definition is_append (e : event) : bool :=
  match e with Appended _ _ => true | _ => false end.

Definition is_write (e : event) : bool :=
  match e with
  | Appended _ _ | Rewritten _ _ => true
  | _ => false
  end.

(** A run that left the disk as it found it. *)
Definition no_mutation (fs : Files) (r : result) : Prop :=
  res_files r = fs /\ List.filter is_write (res_log r) = [].


(** The directed edges of the graph, as a relation. *)
Definition edge (g : Graph) (u v : string) : Prop := (u, v) ∈ edges g.

(** [dep] is a dependency of [module], direct or not: a path leads from
    [dep] to [module]. *)
Definition transitive_dependency (g : Graph) (module dep : string) : Prop :=
  tc (edge g) dep module.

(** The nodes some edge leaves. *)
Definition edge_sources (g : Graph) : gset string :=
  list_to_set (map fst (edges g)).

(** Module [m] stands in the entry of namespace [ns]. *)
Definition has_entry (include : list (string * gset string)) (ns m : string)
    : Prop :=
  exists X, (ns, X) ∈ include /\ m ∈ X.

(** The namespace under which the loop over [deps] files [dep], if any. *)
Definition wanted (g : Graph) (skip_native : bool) (dep : string) : option string :=
  match g_node g dep with
  | Some node =>
      if skip_native && contains "vendor/odoo" (namespace node) then None
      else Some (namespace node)
  | None => None
  end.

(** The text made of the given lines, each ended by LF. *)
Fixpoint unlines (lines : list string) : string :=
  match lines with
  | [] => ""
  | line :: rest => line +:+ nl +:+ unlines rest
  end.

(** The ignore file is no namespace's whitelist file. *)
Definition ignore_file_apart (cwd : string) (g : Graph) : bool :=
  forallb
    (fun module =>
       match g_node g module with
       | Some node =>
           negb (String.eqb (_get_sparse_persistence_file cwd (namespace node))
                            (dockerignore_path cwd))
       | None => true
       end)
    (graph_iter g).


(** The files after [n] passes of [_reconcile_auto_install]. *)
Fixpoint after_passes (cwd : string) (set_iter : gset string -> list string)
    (n : nat) (g : Graph) (fs : Files) : Files :=
  match n with
  | O => fs
  | S n' =>
      after_passes cwd set_iter n' g (_reconcile_auto_install cwd set_iter g fs).1.2
  end.

(** ** Graphs and files of the examples

    All examples run in the working directory [/repo]. *)


(** A graph without cycle or long chain, as far as [_warn_path_length] sees. *)
Definition no_long_path (g : Graph) (deps : gset string) : option (list string) :=
  Some [].

Definition mk_node (ns : string) (auto : bool) (deps : list string)
    : option ModuleNode :=
  Some {| namespace := ns;
          manifest := {| auto_install := auto; depends := deps |} |}.




(** [base] lives in a namespace without a whitelist file, [mod_a] in one that
    has a file. *)
Definition native_graph : Graph := {|
  nodes := [("base", mk_node "vendor/odoo/addons" false []);
            ("mod_a", mk_node "vendor/acme" false ["base"])];
  edges := [("base", "mod_a")]
|}.

Definition native_files : Files :=
  {[ "/repo/vendor/.acme" := unlines ["mod_a"; "!setup/**"] ]}.



(** [mod_b] depends on [mod_a]; both live under [vendor/acme], which has no
    whitelist file yet. *)
Definition pair_graph : Graph := {|
  nodes := [("mod_a", mk_node "vendor/acme" false []);
            ("mod_b", mk_node "vendor/acme" false ["mod_a"])];
  edges := [("mod_a", "mod_b")]
|}.

Definition pair_files : Files :=
  {[ "/repo/.dockerignore" := unlines [DOCKERIGNORE_PLACEHOLDER] ]}.

(** [mod_a] depends on [ghost], which no manifest defines. *)
Definition ghost_graph : Graph := {|
  nodes := [("ghost", None); ("mod_a", mk_node "vendor/acme" false ["ghost"])];
  edges := [("ghost", "mod_a")]
|}.

(** A chain of auto-install modules, each depending on the one before; only
    the first one's dependency [base] is on file. *)
Definition chain3_graph : Graph := {|
  nodes := [("base", mk_node "vendor/acme" false []);
            ("a1", mk_node "vendor/acme" true ["base"]);
            ("a2", mk_node "vendor/acme" true ["a1"]);
            ("a3", mk_node "vendor/acme" true ["a2"])];
  edges := [("base", "a1"); ("a1", "a2"); ("a2", "a3")]
|}.

Definition chain3_files : Files :=
  {[ "/repo/vendor/.acme" := unlines ["base"; "!setup/**"] ]}.

(** [mod_a] is on file, but the file's last line has no terminator (a file
    edited by hand: the program ends every line it writes). *)
Definition unterminated_files : Files :=
  {[ "/repo/vendor/.acme" := "mod_a";
     "/repo/.dockerignore" := unlines [DOCKERIGNORE_PLACEHOLDER] ]}.

(** * Proofs *)

(** ** Strings: [splitlines], [join] and text mode *)

Module PyStrFacts.
Import PyStr.

Lemma append_cons c (s t : string) : String c s +:+ t = String c (s +:+ t).
Proof. reflexivity. Qed.

Lemma append_nil_l (s : string) : "" +:+ s = s.
Proof. reflexivity. Qed.

Lemma append_assoc (a b c : string) : (a +:+ b) +:+ c = a +:+ b +:+ c.
Proof.
  induction a as [|x a IH]; [done |]. by rewrite !append_cons, IH.
Qed.

Lemma append_nil_r (a : string) : a +:+ "" = a.
Proof. induction a as [|x a IH]; [done |]. by rewrite append_cons, IH. Qed.

Lemma splitlines_nil s : splitlines s = [] -> s = "".
Proof.
  destruct s as [|c s]; [done |]. simpl.
  destruct (line_boundary c); [done |].
  by destruct (splitlines s).
Qed.

Lemma LF_boundary : line_boundary LF = true.
Proof. reflexivity. Qed.

Lemma splitlines_line l rest :
  single_line l = true ->
  splitlines (l +:+ nl +:+ rest) = l :: splitlines rest.
Proof.
  induction l as [|c l IH]; intros Hl.
  - reflexivity.
  - simpl in Hl. apply andb_true_iff in Hl as [Hc Hl].
    apply negb_true_iff in Hc.
    change (String c l +:+ nl +:+ rest) with (String c (l +:+ nl +:+ rest)).
    cbn [splitlines]. rewrite Hc, (IH Hl). done.
Qed.

Lemma terminated_cons c s :
  s <> "" -> terminated (String c s) = terminated s.
Proof. by destruct s. Qed.

Lemma splitlines_break c s :
  line_boundary c = true ->
  splitlines (String c s) = "" :: splitlines (after_break c s).
Proof.
  intros Hc. cbn [splitlines]. rewrite Hc. unfold after_break.
  destruct (Ascii.eqb c CR); [|done]. destruct s as [|c' s]; [done |].
  by destruct (Ascii.eqb c' LF).
Qed.

Lemma splitlines_plain c s :
  line_boundary c = false ->
  splitlines (String c s) =
    match splitlines s with
    | [] => [String c ""]
    | l :: ls => String c l :: ls
    end.
Proof. intros Hc. cbn [splitlines]. by rewrite Hc. Qed.

Lemma after_break_length c s :
  String.length (after_break c s) <= String.length s.
Proof.
  unfold after_break. destruct (Ascii.eqb c CR); [|done].
  destruct s as [|c' s]; [done |]. destruct (Ascii.eqb c' LF); simpl; lia.
Qed.

Lemma after_break_app c s t :
  s <> "" -> terminated s = true ->
  after_break c (s +:+ t) = after_break c s +:+ t
  /\ terminated (after_break c s) = true.
Proof.
  intros Hs Ht. unfold after_break. destruct (Ascii.eqb c CR); [|done].
  destruct s as [|c' s]; [done |]. rewrite append_cons.
  destruct (Ascii.eqb c' LF) eqn:Hc'; [|done]. split; [done |].
  destruct s as [|c2 s]; [done |]. by rewrite terminated_cons in Ht.
Qed.

Lemma splitlines_app s t :
  terminated s = true -> splitlines (s +:+ t) = splitlines s ++ splitlines t.
Proof.
  remember (String.length s) as n eqn:Hn. revert s Hn.
  induction n as [n IH0] using lt_wf_ind. intros s ->.
  assert (IH : forall s', String.length s' < String.length s ->
    terminated s' = true -> splitlines (s' +:+ t) = splitlines s' ++ splitlines t)
    by (intros s' Hlt; exact (IH0 _ Hlt s' eq_refl)).
  clear IH0. intros Hs. destruct s as [|c s]; [done |].
  rewrite append_cons.
  destruct (line_boundary c) eqn:Hc.
  - rewrite !splitlines_break by done.
    destruct (decide (s = "")) as [-> | Hne].
    { simpl in Hs. apply Ascii.eqb_eq in Hs as ->. done. }
    rewrite terminated_cons in Hs by done.
    destruct (after_break_app c s t Hne Hs) as [-> Hterm].
    simpl. f_equal. apply IH; [|done].
    pose proof (after_break_length c s). simpl. lia.
  - destruct (decide (s = "")) as [-> | Hne].
    { simpl in Hs. apply Ascii.eqb_eq in Hs as ->. done. }
    rewrite terminated_cons in Hs by done.
    rewrite !splitlines_plain by done.
    rewrite IH by (done || simpl; lia).
    destruct (splitlines s) eqn:E; [|done].
    by apply splitlines_nil in E.
Qed.

Lemma terminated_app_nl s : terminated (s +:+ nl) = true.
Proof.
  induction s as [|c s IH]; [done |].
  change (String c s +:+ nl) with (String c (s +:+ nl)).
  rewrite terminated_cons; [done |]. by destruct s.
Qed.

Lemma join_cons sep x xs :
  xs <> [] -> join sep (x :: xs) = x +:+ sep +:+ join sep xs.
Proof. by destruct xs. Qed.

Lemma splitlines_join ms rest :
  Forall (fun m => single_line m = true) ms -> ms <> [] ->
  splitlines ((join nl ms +:+ nl) +:+ rest) = ms ++ splitlines rest.
Proof.
  induction 1 as [|m ms Hm Hms IH]; [done |]. intros _.
  destruct ms as [|m' ms].
  - simpl. rewrite append_assoc. by apply splitlines_line.
  - rewrite join_cons by done.
    specialize (IH ltac:(done)). revert IH.
    generalize (join nl (m' :: ms)). intros J IH.
    replace (((m +:+ nl +:+ J) +:+ nl) +:+ rest)
      with (m +:+ nl +:+ ((J +:+ nl) +:+ rest))
      by (by rewrite !append_assoc).
    rewrite splitlines_line by done. by rewrite IH.
Qed.


Lemma after_break_plain c s :
  Ascii.eqb c CR = false -> after_break c s = s.
Proof. intros H. unfold after_break. by rewrite H. Qed.

(** Reading in text mode does not change the lines. *)
Lemma splitlines_universal_newlines s :
  splitlines (universal_newlines s) = splitlines s.
Proof.
  remember (String.length s) as n eqn:Hn. revert s Hn.
  induction n as [n IH0] using lt_wf_ind. intros s ->.
  assert (IH : forall s', String.length s' < String.length s ->
    splitlines (universal_newlines s') = splitlines s')
    by (intros s' Hlt; exact (IH0 _ Hlt s' eq_refl)).
  clear IH0. destruct s as [|c s]; [done |].
  cbn [universal_newlines]. destruct (Ascii.eqb c CR) eqn:Hcr.
  - apply Ascii.eqb_eq in Hcr as ->.
    rewrite (splitlines_break CR) by done.
    rewrite (splitlines_break LF) by done.
    rewrite (after_break_plain LF) by done. f_equal.
    unfold after_break. rewrite Ascii.eqb_refl.
    destruct s as [|c' s]; [done |].
    destruct (Ascii.eqb c' LF); apply IH; simpl; lia.
  - destruct (line_boundary c) eqn:Hc.
    + rewrite !splitlines_break, !after_break_plain by done.
      f_equal. apply IH. simpl. lia.
    + rewrite !splitlines_plain by done. rewrite IH by (simpl; lia). done.
Qed.

End PyStrFacts.

Import PyStrFacts.

(** ** Nodes of the graph, and folds over lists *)

Section GraphFacts.
Lemma fold_left_inv {A B} (P : A -> Prop) (f : A -> B -> A) (l : list B) a :
  P a -> (forall a b, b ∈ l -> P a -> P (f a b)) -> P (fold_left f l a).
Proof.
  revert a. induction l as [|b l IH]; intros a Ha Hf; [done |].
  simpl. apply IH.
  - apply Hf; [left | done].
  - intros a' b' Hb'. apply Hf. by right.
Qed.

Lemma g_node_in_graph g m node : g_node g m = Some node -> m ∈ graph_iter g.
Proof.
  unfold g_node, graph_iter. destruct (List.find _ _) as [[k v]|] eqn:E; [|done].
  intros _. apply find_some in E as [Hin Hk]. simpl in Hk.
  apply String.eqb_eq in Hk as ->.
  apply list_elem_of_In in Hin. apply (list_elem_of_fmap_2 fst) in Hin. done.
Qed.

Lemma elem_of_filter_bool {A} (f : A -> bool) (l : list A) x :
  x ∈ List.filter f l <-> x ∈ l /\ f x = true.
Proof. rewrite !list_elem_of_In. apply filter_In. Qed.

Lemma elem_of_flat_map {A B} (f : A -> list B) (l : list A) x :
  x ∈ flat_map f l <-> exists y, y ∈ l /\ x ∈ f y.
Proof.
  rewrite list_elem_of_In, in_flat_map.
  by setoid_rewrite list_elem_of_In.
Qed.
End GraphFacts.

(** ** The scans of the graph: [_get_all_sparse_files] and the first loop
    of [_reconcile_auto_install] *)

Section ScanFacts.
Variable cwd : string.
Local Abbreviation path := (_get_sparse_persistence_file cwd).

Lemma sparse_files_fold g fs l (acc : gset string) :
  fold_left (sparse_files_step cwd g fs) l acc
  = acc ∪ list_to_set (omap (sparse_path cwd g fs) l).
Proof.
  revert acc. induction l as [|m l IH]; intros acc; simpl.
  - set_solver.
  - rewrite IH. unfold sparse_files_step, sparse_path at 2.
    destruct (g_node g m) as [node|]; [|done].
    simpl. destruct (isfile fs _); simpl; set_solver.
Qed.

Lemma elem_of_sparse_files g fs p :
  p ∈ _get_all_sparse_files cwd g fs <->
  exists module node, g_node g module = Some node
    /\ p = path (namespace node) /\ isfile fs p = true.
Proof.
  unfold _get_all_sparse_files. rewrite sparse_files_fold.
  rewrite elem_of_union, elem_of_list_to_set, list_elem_of_omap. split.
  - intros [H | (m & Hm & Hp)]; [set_solver |].
    unfold sparse_path in Hp. destruct (g_node g m) as [node|] eqn:E; [|done].
    simpl in Hp. destruct (isfile fs _) eqn:F; [|done]. injection Hp as <-. eauto.
  - intros (m & node & E & -> & F). right. exists m. split.
    + by eapply g_node_in_graph.
    + unfold sparse_path. simpl. by rewrite E, F.
Qed.

Lemma scan_fold g fs l a b :
  fold_left (scan_step cwd g fs) l (a, b)
  = (a ++ List.filter (is_unsparse cwd g fs) l, b ++ List.filter (is_auto g) l).
Proof.
  revert a b. induction l as [|m l IH]; intros a b; cbn [fold_left List.filter].
  - by rewrite !app_nil_r.
  - destruct (scan_step cwd g fs (a, b) m) as [a' b'] eqn:E. rewrite IH.
    assert (a' = a ++ (if is_unsparse cwd g fs m then [m] else [])
            /\ b' = b ++ (if is_auto g m then [m] else [])) as [-> ->].
    { unfold scan_step in E. unfold is_unsparse, is_auto.
      destruct (g_node g m) as [node|]; simplify_eq;
        [|by rewrite !app_nil_r].
      by destruct (isfile fs _), (auto_install _); rewrite ?app_nil_r. }
    by destruct (is_unsparse cwd g fs m), (is_auto g m);
      rewrite <- ?app_assoc, ?app_nil_r.
Qed.

Lemma scan_modules_spec g fs :
  scan_modules cwd g fs
  = (List.filter (is_unsparse cwd g fs) (graph_iter g),
     List.filter (is_auto g) (graph_iter g)).
Proof. unfold scan_modules. by rewrite scan_fold. Qed.

Variable set_iter : gset string -> list string.
Hypothesis set_iter_perm : iteration_order set_iter.

Lemma set_iter_elem X x : x ∈ set_iter X <-> x ∈ X.
Proof. rewrite (set_iter_perm X). apply elem_of_elements. Qed.

(** Membership in [all_white_listed]. *)
Lemma elem_of_all_white_listed g fs x :
  x ∈ all_white_listed cwd set_iter g fs <->
  (exists node, g_node g x = Some node
     /\ isfile fs (path (namespace node)) = false)
  \/ (exists module node, g_node g module = Some node
     /\ isfile fs (path (namespace node)) = true
     /\ x ∈ read_lines fs (path (namespace node))).
Proof.
  unfold all_white_listed. rewrite scan_modules_spec. simpl.
  rewrite elem_of_app, elem_of_filter_bool, elem_of_flat_map.
  split.
  - intros [[Hx Hu] | (p & Hp & Hin)].
    + left. unfold is_unsparse in Hu. destruct (g_node g x) as [node|]; [|done].
      exists node. split; [done |]. by apply negb_true_iff.
    + right. apply set_iter_elem, elem_of_sparse_files in Hp
        as (m & node & E & -> & F).
      by exists m, node.
  - intros [(node & E & F) | (m & node & E & F & Hin)].
    + left. split; [by eapply g_node_in_graph |].
      unfold is_unsparse. by rewrite E, F.
    + right. exists (path (namespace node)). split; [|done].
      apply set_iter_elem, elem_of_sparse_files. eauto.
Qed.
End ScanFacts.

(** ** Reading and appending to files *)

Section FileFacts.
Implicit Types fs : Files.

Lemma read_lines_eq fs p : read_lines fs p = splitlines (default "" (fs !! p)).
Proof. apply splitlines_universal_newlines. Qed.

Lemma isfile_true fs p : isfile fs p = true <-> is_Some (fs !! p).
Proof. unfold isfile. destruct (fs !! p); split; (done || by intros []). Qed.

Lemma isfile_append fs p t q :
  isfile fs p = true -> isfile (append_file fs p t) q = isfile fs q.
Proof.
  intros Hp. unfold isfile, append_file in *.
  destruct (decide (p = q)) as [-> | Hne].
  - rewrite lookup_insert_eq. by destruct (fs !! q).
  - by rewrite lookup_insert_ne.
Qed.

Lemma lookup_append_ne fs p t q :
  p <> q -> append_file fs p t !! q = fs !! q.
Proof. intros. unfold append_file. by rewrite lookup_insert_ne. Qed.

Lemma lookup_append_eq fs p t :
  append_file fs p t !! p = Some (default "" (fs !! p) +:+ t).
Proof. unfold append_file. by rewrite lookup_insert_eq. Qed.

Lemma read_lines_append_ne fs p t q :
  p <> q -> read_lines (append_file fs p t) q = read_lines fs q.
Proof. intros. rewrite !read_lines_eq. by rewrite lookup_append_ne. Qed.

Lemma read_lines_append_eq fs p t :
  terminated (default "" (fs !! p)) = true ->
  read_lines (append_file fs p t) p = read_lines fs p ++ splitlines t.
Proof.
  intros Ht. rewrite !read_lines_eq, lookup_append_eq. simpl.
  by apply splitlines_app.
Qed.

Lemma splitlines_entry m : single_line m = true -> splitlines (m +:+ nl) = [m].
Proof.
  intros Hm. rewrite <- (append_nil_r (m +:+ nl)), append_assoc.
  by rewrite splitlines_line.
Qed.

Lemma terminated_append fs p t q :
  terminated (default "" (fs !! q)) = true ->
  terminated (default "" (append_file fs p (t +:+ nl) !! q)) = true.
Proof.
  intros Hq. destruct (decide (p = q)) as [-> | Hne].
  - rewrite lookup_append_eq. simpl. rewrite <- append_assoc.
    apply terminated_app_nl.
  - by rewrite lookup_append_ne.
Qed.
End FileFacts.

(** ** The format of whitelist files and of module names *)

Section FormatFacts.
Variable cwd : string.
Local Abbreviation path := (_get_sparse_persistence_file cwd).
Implicit Types fs : Files.

Lemma whitelists_terminated_spec g fs :
  whitelists_terminated cwd g fs = true <->
  forall m node, g_node g m = Some node ->
    terminated (default "" (fs !! path (namespace node))) = true.
Proof.
  unfold whitelists_terminated. rewrite forallb_forall. split.
  - intros H m node E. specialize (H m). rewrite E in H. apply H.
    apply list_elem_of_In. by eapply g_node_in_graph.
  - intros H m _. destruct (g_node g m) eqn:E; [by eapply H | done].
Qed.

Lemma names_single_line_spec g m :
  names_single_line g = true -> m ∈ graph_iter g -> single_line m = true.
Proof.
  unfold names_single_line. rewrite forallb_forall. intros H Hm.
  by apply H, list_elem_of_In.
Qed.

Lemma auto_install_step_spec g awl fs ch log m :
  auto_install_step cwd g awl (fs, ch, log) m =
    if eligible cwd g awl fs m then
      match g_node g m with
      | Some node =>
          (append_file fs (path (namespace node)) (m +:+ nl), true,
           log ++ [Appended (path (namespace node)) (m +:+ nl)])
      | None => (fs, ch, log)
      end
    else (fs, ch, log).
Proof.
  unfold auto_install_step, eligible.
  destruct (g_node g m) as [node|]; [|done]. simpl.
  destruct (forallb _ _); [|done]. simpl.
  destruct (isfile fs _); [|done]. simpl.
  rewrite (bool_decide_ext _ (m ∈ read_lines fs (path (namespace node))))
    by apply elem_of_list_to_set.
  by destruct (bool_decide _).
Qed.
End FormatFacts.

(** ** Files that only grow, and one step of the loop over [auto_install] *)

Section ExtendsFacts.
Variable cwd : string.
Local Abbreviation path := (_get_sparse_persistence_file cwd).
Implicit Types fs : Files.

Lemma extends_refl g fs :
  whitelists_terminated cwd g fs = true -> extends cwd g fs fs.
Proof. by split. Qed.

Lemma extends_trans g fs1 fs2 fs3 :
  extends cwd g fs1 fs2 -> extends cwd g fs2 fs3 -> extends cwd g fs1 fs3.
Proof.
  intros [A1 B1 C1 D1] [A2 B2 C2 D2]. split; auto.
  intros p Hp. by rewrite C2, C1.
Qed.

(** Appending one terminated block of single lines at a whitelist path. *)
Lemma extends_append g fs m node t :
  whitelists_terminated cwd g fs = true ->
  g_node g m = Some node ->
  extends cwd g fs (append_file fs (path (namespace node)) (t +:+ nl))
  /\ read_lines (append_file fs (path (namespace node)) (t +:+ nl))
       (path (namespace node))
     = read_lines fs (path (namespace node)) ++ splitlines (t +:+ nl).
Proof.
  intros Hok E.
  pose proof (proj1 (whitelists_terminated_spec cwd g fs) Hok) as Hok'.
  assert (Hr := read_lines_append_eq fs (path (namespace node)) (t +:+ nl)
                  (Hok' _ _ E)).
  split; [|done]. split.
  - intros p Hp. unfold isfile in *. destruct (decide (path (namespace node) = p)) as [<- | Hne].
    + by rewrite lookup_append_eq.
    + by rewrite lookup_append_ne.
  - intros p x Hx. destruct (decide (path (namespace node) = p)) as [<- | Hne].
    + rewrite Hr. apply elem_of_app. by left.
    + by rewrite read_lines_append_ne.
  - intros p Hp. apply lookup_append_ne. intros <-. by eapply Hp.
  - apply whitelists_terminated_spec. intros m' node' E'.
    apply terminated_append. by eapply Hok'.
Qed.

Lemma auto_install_step_cases g awl (st : Files * bool * list event) m :
  (auto_install_step cwd g awl st m = st
   /\ eligible cwd g awl st.1.1 m = false)
  \/ (eligible cwd g awl st.1.1 m = true
      /\ (auto_install_step cwd g awl st m).1.2 = true
      /\ exists node, g_node g m = Some node
         /\ (auto_install_step cwd g awl st m).1.1
            = append_file st.1.1 (path (namespace node)) (m +:+ nl)
         /\ (auto_install_step cwd g awl st m).2
            = st.2 ++ [Appended (path (namespace node)) (m +:+ nl)]).
Proof.
  destruct st as [[fs ch] log]. rewrite auto_install_step_spec.
  destruct (eligible cwd g awl fs m) eqn:El; [|by left].
  right. split; [done |]. unfold eligible in El.
  destruct (g_node g m) as [node|]; [|done]. split; [done |]. by exists node.
Qed.

Lemma eligible_inv g awl fs m :
  eligible cwd g awl fs m = true ->
  exists node, g_node g m = Some node
    /\ isfile fs (path (namespace node)) = true
    /\ (m ∉ read_lines fs (path (namespace node)))
    /\ forall dep, dep ∈ depends (manifest node) -> dep ∈ awl.
Proof.
  unfold eligible. destruct (g_node g m) as [node|]; [|done].
  simpl. rewrite !andb_true_iff, negb_true_iff, bool_decide_eq_false.
  intros [[Hd Hf] Hn]. exists node. repeat split; try done.
  intros dep Hdep. rewrite forallb_forall in Hd.
  apply list_elem_of_In, Hd in Hdep. by apply bool_decide_eq_true in Hdep.
Qed.

(** What the loop over [auto_install] establishes, whatever the list. *)
Lemma auto_install_fold g awl fs l :
  names_single_line g = true ->
  whitelists_terminated cwd g fs = true ->
  let st := fold_left (auto_install_step cwd g awl) l (fs, false, []) in
  extends cwd g fs st.1.1
  /\ (forall p, isfile st.1.1 p = isfile fs p)
  /\ (st.1.2 = false ->
        st = (fs, false, []) /\ forall m, m ∈ l -> eligible cwd g awl fs m = false)
  /\ (st.1.2 = true ->
        exists m node, m ∈ l /\ g_node g m = Some node
          /\ isfile fs (path (namespace node)) = true
          /\ (m ∉ read_lines fs (path (namespace node)))
          /\ m ∈ read_lines st.1.1 (path (namespace node))
          /\ Appended (path (namespace node)) (m +:+ nl) ∈ st.2).
Proof.
  intros Hnames Hok. induction l as [|m l IH] using rev_ind.
  - simpl. split; [by apply extends_refl |]. split; [done |].
    split; [|done]. intros _. split; [done |]. intros m Hm. inversion Hm.
  - rewrite fold_left_app. cbn [fold_left].
    set (st0 := fold_left (auto_install_step cwd g awl) l (fs, false, [])) in *.
    cbv zeta in IH. destruct IH as (Hext & Hfile & Hfalse & Htrue).
    destruct (auto_install_step_cases g awl st0 m) as [[-> Hel] | (Hel & Hch & node & E & Hfs & Hlog)].
    + split; [done |]. split; [done |]. split.
      * intros Hc. destruct (Hfalse Hc) as [Hst Hall]. split; [done |].
        intros m' [Hm' | ->%list_elem_of_singleton]%elem_of_app; [auto |].
        by rewrite Hst in Hel.
      * intros Hc. destruct (Htrue Hc) as (m' & node' & Hm' & ?).
        exists m', node'. split; [|done]. apply elem_of_app. by left.
    + destruct (eligible_inv _ _ _ _ Hel) as (node' & E' & Hf & Hnot & _).
      assert (node' = node) as -> by congruence.
      destruct (extends_append g st0.1.1 m node m (ext_terminated _ _ _ _ Hext) E)
        as [Hext' Hlines].
      rewrite <- Hfs in Hext', Hlines.
      rewrite splitlines_entry in Hlines
        by (eapply names_single_line_spec; [done | by eapply g_node_in_graph]).
      split; [by eapply extends_trans |]. split.
      * intros p. rewrite Hfs, isfile_append by done. apply Hfile.
      * split; [by rewrite Hch |]. intros _.
        destruct (st0.1.2) eqn:Hc0.
        -- destruct (Htrue eq_refl) as (m' & node' & Hm' & E2 & Hf' & Hn' & Hin' & Hlog').
           exists m', node'. split; [apply elem_of_app; by left |].
           repeat split; try done.
           ++ by apply (ext_lines _ _ _ _ Hext').
           ++ rewrite Hlog. apply elem_of_app. by left.
        -- exists m, node. split; [apply elem_of_app; right; by left |].
           repeat split; try done.
           ++ by rewrite <- Hfile.
           ++ intros Hin. apply Hnot. by apply (ext_lines _ _ _ _ Hext).
           ++ rewrite Hlines. apply elem_of_app. right. by left.
           ++ rewrite Hlog. apply elem_of_app. right. by left.
Qed.
End ExtendsFacts.

(** ** One pass of [_reconcile_auto_install], and the loop of line 247 *)

Section LoopFacts.
Variable cwd : string.
Variable set_iter : gset string -> list string.
Local Abbreviation path := (_get_sparse_persistence_file cwd).
Implicit Types fs : Files.

Lemma reconcile_pass_spec g fs :
  names_single_line g = true ->
  whitelists_terminated cwd g fs = true ->
  exists ch fs' log,
    _reconcile_auto_install cwd set_iter g fs = (ch, fs', log)
    /\ extends cwd g fs fs'
    /\ (forall p, isfile fs' p = isfile fs p)
    /\ (ch = false ->
          fs' = fs /\ log = []
          /\ forall m, is_auto g m = true -> m ∈ graph_iter g ->
               eligible cwd g (all_white_listed cwd set_iter g fs) fs m = false)
    /\ (ch = true ->
          exists m node, is_auto g m = true /\ g_node g m = Some node
            /\ isfile fs (path (namespace node)) = true
            /\ (m ∉ read_lines fs (path (namespace node)))
            /\ m ∈ read_lines fs' (path (namespace node))
            /\ Appended (path (namespace node)) (m +:+ nl) ∈ log).
Proof.
  intros Hnames Hok. unfold _reconcile_auto_install.
  pose proof (auto_install_fold cwd g (all_white_listed cwd set_iter g fs) fs
                (scan_modules cwd g fs).2 Hnames Hok) as H.
  cbv zeta in H.
  destruct (fold_left _ _ _) as [[fs' ch] log]. simpl in H.
  destruct H as (Hext & Hfile & Hfalse & Htrue).
  exists ch, fs', log. split; [done |]. split; [done |]. split; [done |].
  rewrite scan_modules_spec in Hfalse, Htrue. simpl in Hfalse, Htrue. split.
  - intros Hc. destruct (Hfalse Hc) as [Hst Hall]. simplify_eq.
    split; [done |]. split; [done |]. intros m Ha Hm. apply Hall.
    by apply elem_of_filter_bool.
  - intros Hc. destruct (Htrue Hc) as (m & node & Hm & ?).
    exists m, node. split; [|done]. by apply elem_of_filter_bool in Hm as [_ ?].
Qed.





End LoopFacts.

(** ** One iteration of the loop of lines 230 to 245 *)

Section SeedFacts.
Variable cwd : string.
Variable set_iter : gset string -> list string.
Hypothesis set_iter_perm : iteration_order set_iter.
Local Abbreviation path := (_get_sparse_persistence_file cwd).
Implicit Types fs : Files.


Lemma set_iter_nil X : set_iter X = [] <-> X = ∅.
Proof.
  split.
  - intros H. apply leibniz_equiv, elem_of_equiv_empty. intros x Hx.
    apply (set_iter_elem set_iter set_iter_perm) in Hx. rewrite H in Hx.
    inversion Hx.
  - intros ->. apply Permutation_nil_r. rewrite (set_iter_perm ∅).
    by rewrite elements_empty.
Qed.

Lemma set_single_line_spec X x :
  set_single_line X = true -> x ∈ X -> single_line x = true.
Proof.
  unfold set_single_line. rewrite forallb_forall. intros H Hx.
  by apply H, list_elem_of_In, elem_of_elements.
Qed.

Lemma seed_step_spec fs log ns modules :
  let p := path ns in
  let missing := missing_entries cwd fs ns modules in
  seed_step cwd set_iter (fs, log) (ns, modules) =
    if decide (missing = ∅) then (fs, log ++ [EnableSparseCheckout ns])
    else
      let text := join nl (set_iter missing) +:+ nl in
      (append_file fs p text,
       log ++ EnableSparseCheckout ns
           :: (if isfile fs p then [] else [SymlinkSparseFile ns])
           ++ [Appended p text]).
Proof.
  intros p missing.
  unfold seed_step, missing, missing_entries, read_lines, isfile, SETUP.
  fold p. destruct (fs !! p) as [content|] eqn:E; simpl.
  all: rewrite ?splitlines_universal_newlines.
  - destruct (decide _) as [Hm | Hm].
    + by rewrite bool_decide_eq_true_2.
    + by rewrite bool_decide_eq_false_2.
  - rewrite bool_decide_eq_false_2 by set_solver.
    rewrite decide_False by set_solver. done.
Qed.

(** The lines of the namespace's file after the step. *)
Lemma seed_step_lines fs log ns modules :
  terminated (default "" (fs !! path ns)) = true ->
  set_single_line modules = true ->
  let st := seed_step cwd set_iter (fs, log) (ns, modules) in
  read_lines st.1 (path ns)
    = read_lines fs (path ns) ++ set_iter (missing_entries cwd fs ns modules)
  /\ terminated (default "" (st.1 !! path ns)) = true
  /\ (forall q, q <> path ns -> st.1 !! q = fs !! q)
  /\ (forall q, isfile fs q = true -> isfile st.1 q = true)
  /\ isfile st.1 (path ns) = true.
Proof.
  intros Hterm Hsl. cbv zeta. rewrite seed_step_spec. cbv zeta.
  destruct (decide _) as [Hm | Hm]; simpl.
  - rewrite Hm. rewrite (proj2 (set_iter_nil ∅) eq_refl), app_nil_r.
    repeat split; try done.
    destruct (fs !! path ns) eqn:E; [by unfold isfile; rewrite E |].
    exfalso. unfold missing_entries in Hm. rewrite read_lines_eq, E in Hm.
    simpl in Hm. set_solver.
  - assert (Forall (fun m => single_line m = true)
              (set_iter (missing_entries cwd fs ns modules))) as Hall.
    { apply Forall_forall. intros x Hx.
      apply (set_iter_elem set_iter set_iter_perm) in Hx.
      unfold missing_entries in Hx.
      apply elem_of_difference in Hx as [[Hx | ->%elem_of_singleton]%elem_of_union _].
      - by eapply set_single_line_spec.
      - reflexivity. }
    assert (set_iter (missing_entries cwd fs ns modules) <> []) as Hne
      by (by rewrite set_iter_nil).
    split; [|split; [|split; [|split]]].
    + rewrite read_lines_append_eq by done. f_equal.
      rewrite <- (append_nil_r (_ +:+ nl)).
      rewrite splitlines_join by done. by rewrite app_nil_r.
    + rewrite lookup_append_eq. simpl. rewrite <- append_assoc.
      apply terminated_app_nl.
    + intros q Hq. by rewrite lookup_append_ne.
    + intros q Hq. unfold isfile in *.
      destruct (decide (path ns = q)) as [<- | Hneq];
        [by rewrite lookup_append_eq | by rewrite lookup_append_ne].
    + unfold isfile. by rewrite lookup_append_eq.
Qed.
End SeedFacts.

(** ** Occurrences of an entry after the append of lines 240 to 245 *)

Section SeedCount.
Variable cwd : string.
Variable set_iter : gset string -> list string.
Hypothesis set_iter_perm : iteration_order set_iter.
Local Abbreviation path := (_get_sparse_persistence_file cwd).
Implicit Types fs : Files.







End SeedCount.

(** ** [ancestors] computes the nodes with a path to the target *)

Section Reachability.
Variable g : Graph.
Implicit Types S : gset string.

Lemma elem_of_predecessors S x :
  x ∈ predecessors g S <-> exists y, y ∈ S /\ edge g x y.
Proof.
  unfold predecessors, edge. rewrite elem_of_list_to_set, list_elem_of_fmap.
  split.
  - intros ([u v] & -> & [Hin Hv]%elem_of_filter_bool). simpl in *.
    apply bool_decide_eq_true in Hv. eauto.
  - intros (y & Hy & He). exists (x, y). split; [done |].
    apply elem_of_filter_bool. split; [done |]. by apply bool_decide_eq_true.
Qed.

Lemma reach_back_sound n S x :
  x ∈ reach_back g n S -> exists y, y ∈ S /\ rtc (edge g) x y.
Proof.
  revert S. induction n as [|n IH]; intros S; simpl.
  - intros Hx. by exists x.
  - intros (y & [Hy | (z & Hz & He)%elem_of_predecessors]%elem_of_union & Hr)%IH.
    + eauto.
    + exists z. split; [done |]. eapply rtc_r; eauto.
Qed.

Lemma reach_back_closed n S :
  predecessors g S ⊆ S -> reach_back g n S = S.
Proof.
  intros Hc. induction n as [|n IH]; [done |]. simpl.
  replace (S ∪ predecessors g S) with S by set_solver. done.
Qed.

Lemma reach_back_mono n S : S ⊆ reach_back g n S.
Proof.
  revert S. induction n as [|n IH]; intros S; [done |]. simpl.
  etrans; [|apply IH]. set_solver.
Qed.

Lemma predecessors_sources S : predecessors g S ⊆ edge_sources g.
Proof.
  intros x (y & _ & He)%elem_of_predecessors. unfold edge_sources, edge in *.
  apply elem_of_list_to_set, list_elem_of_fmap. by exists (x, y).
Qed.

Lemma size_list_to_set_le (l : list string) :
  size (list_to_set l : gset string) <= length l.
Proof.
  induction l as [|x l IH]; cbn [list_to_set length].
  - by rewrite size_empty.
  - rewrite size_union_alt, size_singleton.
    pose proof (subseteq_size (list_to_set l ∖ {[x]}) (list_to_set l : gset string)
                  ltac:(set_solver)). lia.
Qed.

Lemma reach_back_saturates n S U :
  S ⊆ U -> edge_sources g ⊆ U -> size U <= size S + n ->
  predecessors g (reach_back g n S) ⊆ reach_back g n S.
Proof.
  revert S. induction n as [|n IH]; intros S HS HU Hsize.
  - simpl. assert (S = U) as ->.
    { apply leibniz_equiv, set_subseteq_size_equiv; [done | lia]. }
    etrans; [apply predecessors_sources | done].
  - simpl. destruct (decide (predecessors g S ⊆ S)) as [Hc | Hnc].
    + replace (S ∪ predecessors g S) with S by set_solver.
      by rewrite reach_back_closed.
    + apply IH; [|done |].
      * pose proof (predecessors_sources S). set_solver.
      * assert (S ⊂ S ∪ predecessors g S) as Hlt by set_solver.
        apply subset_size in Hlt. lia.
Qed.

Lemma reach_back_complete t x :
  rtc (edge g) x t -> x ∈ reach_back g (length (edges g)) {[t]}.
Proof.
  set (R := reach_back g (length (edges g)) {[t]}).
  assert (predecessors g R ⊆ R) as Hclosed.
  { apply (reach_back_saturates _ _ ({[t]} ∪ edge_sources g)); [set_solver.. |].
    rewrite size_union_alt, size_singleton.
    pose proof (subseteq_size (edge_sources g ∖ {[t]}) (edge_sources g) ltac:(set_solver)).
    pose proof (size_list_to_set_le (map fst (edges g))) as Hle.
    rewrite length_map in Hle. unfold edge_sources in *. lia. }
  induction 1 as [t | x y t He Hr IH].
  - apply reach_back_mono. set_solver.
  - apply Hclosed, elem_of_predecessors. exists y. split; [by apply IH | done].
Qed.

Lemma ancestors_spec t deps :
  ancestors g t = Some deps ->
  t ∈ graph_iter g
  /\ forall x, x ∈ deps <-> x <> t /\ transitive_dependency g t x.
Proof.
  unfold ancestors. case_bool_decide as Ht; [|done]. intros [= <-].
  split; [done |]. intros x. rewrite elem_of_difference, not_elem_of_singleton.
  unfold transitive_dependency. split.
  - intros [(y & ->%elem_of_singleton & Hr)%reach_back_sound Hne].
    split; [done |]. apply rtc_tc in Hr as [-> | Htc]; done.
  - intros [Hne Htc]. split; [|done].
    by apply reach_back_complete, tc_rtc.
Qed.

Lemma ancestors_none t : ancestors g t = None <-> t ∉ graph_iter g.
Proof. unfold ancestors. case_bool_decide; naive_solver. Qed.
End Reachability.

(** ** The mapping [include] of lines 209 to 226 *)

Section IncludeFacts.
Variable set_iter : gset string -> list string.
Hypothesis set_iter_perm : iteration_order set_iter.

Lemma has_entry_include_add ns dep include k m :
  has_entry (include_add ns dep include) k m
  <-> has_entry include k m \/ (k = ns /\ m = dep).
Proof.
  unfold has_entry. induction include as [|[k0 v] rest IH]; simpl.
  - split.
    + intros (X & [= -> ->]%list_elem_of_singleton & ->%elem_of_singleton). by right.
    + intros [(X & H & _) | [-> ->]]; [inversion H |].
      exists {[dep]}. split; [left | set_solver].
  - destruct (String.eqb k0 ns) eqn:Ek.
    + apply String.eqb_eq in Ek as ->. split.
      * intros (X & [[= -> ->] | Hin]%elem_of_cons & Hm).
        -- apply elem_of_union in Hm as [Hm | ->%elem_of_singleton]; [|by right].
           left. exists v. split; [left | done].
        -- left. exists X. split; [by right | done].
      * intros [(X & [[= -> ->] | Hin]%elem_of_cons & Hm) | [-> ->]].
        -- exists (v ∪ {[dep]}). split; [left | set_solver].
        -- exists X. split; [by right | done].
        -- exists (v ∪ {[dep]}). split; [left | set_solver].
    + split.
      * intros (X & [[= -> ->] | Hin]%elem_of_cons & Hm).
        -- left. exists v. split; [left | done].
        -- destruct (proj1 IH (ex_intro _ X (conj Hin Hm))) as [(X' & ? & ?) | ?];
             [|by right].
           left. exists X'. split; [by right | done].
      * intros [(X & [[= -> ->] | Hin]%elem_of_cons & Hm) | Heq].
        -- exists v. split; [left | done].
        -- destruct (proj2 IH (or_introl (ex_intro _ X (conj Hin Hm))))
             as (X' & ? & ?).
           exists X'. split; [by right | done].
        -- destruct (proj2 IH (or_intror Heq)) as (X' & ? & ?).
           exists X'. split; [by right | done].
Qed.

Lemma include_fold g skip_native l include0 :
  let st := fold_left (include_step g skip_native) l (include0, false, []) in
  (forall ns m, has_entry st.1.1 ns m
     <-> has_entry include0 ns m \/ (m ∈ l /\ wanted g skip_native m = Some ns))
  /\ (st.1.2 = true <-> exists dep, dep ∈ l /\ g_node g dep = None)
  /\ st.2 = map MissingDependency
              (List.filter (fun dep => bool_decide (g_node g dep = None)) l).
Proof.
  induction l as [|dep l IH] using rev_ind.
  - simpl. split; [|split; [|done]].
    + intros ns m. split; [by left |]. intros [? | [H _]]; [done | inversion H].
    + split; [done |]. intros (dep & H & _). inversion H.
  - rewrite fold_left_app. cbn [fold_left]. cbv zeta in IH.
    destruct (fold_left _ l _) as [[include fail] log]. simpl in IH.
    destruct IH as (Hhas & Hfail & Hlog).
    rewrite List.filter_app, map_app. cbn [List.filter].
    unfold include_step. destruct (g_node g dep) as [node|] eqn:E.
    + rewrite bool_decide_eq_false_2 by done. simpl.
      assert (wanted g skip_native dep
              = if skip_native && contains "vendor/odoo" (namespace node)
                then None else Some (namespace node)) as Hw
        by (unfold wanted; by rewrite E).
      destruct (skip_native && contains "vendor/odoo" (namespace node)); simpl.
      * split; [|split; [|by rewrite app_nil_r]].
        -- intros ns m. rewrite Hhas, elem_of_app, list_elem_of_singleton.
           naive_solver.
        -- rewrite Hfail. setoid_rewrite elem_of_app.
           setoid_rewrite list_elem_of_singleton. naive_solver.
      * split; [|split; [|by rewrite app_nil_r]].
        -- intros ns m. rewrite has_entry_include_add, Hhas, elem_of_app,
             list_elem_of_singleton. naive_solver.
        -- rewrite Hfail. setoid_rewrite elem_of_app.
           setoid_rewrite list_elem_of_singleton. naive_solver.
    + rewrite bool_decide_eq_true_2 by done. simpl.
      assert (wanted g skip_native dep = None) as Hw
        by (unfold wanted; by rewrite E).
      split; [|split; [|by rewrite Hlog]].
      * intros ns m. rewrite Hhas, elem_of_app, list_elem_of_singleton.
        naive_solver.
      * split; [|done]. intros _. exists dep. split; [|done].
        apply elem_of_app. right. by left.
Qed.

Lemma build_include_spec g skip_native module node deps :
  let st := build_include set_iter g skip_native module node deps in
  (forall ns m, has_entry st.1.1 ns m
     <-> (ns = namespace node /\ m = module)
         \/ (m ∈ deps /\ wanted g skip_native m = Some ns))
  /\ (st.1.2 = true <-> exists dep, dep ∈ deps /\ g_node g dep = None)
  /\ (forall dep, MissingDependency dep ∈ st.2
        <-> dep ∈ deps /\ g_node g dep = None)
  /\ List.filter is_write st.2 = [].
Proof.
  cbv zeta. unfold build_include.
  pose proof (include_fold g skip_native (set_iter deps)
                [(namespace node, {[module]})]) as (Hhas & Hfail & Hlog).
  split; [|split; [|split]].
  - intros ns m. rewrite Hhas. unfold has_entry at 1.
    setoid_rewrite list_elem_of_singleton.
    rewrite (set_iter_elem set_iter set_iter_perm). split.
    + intros [(X & [= -> ->] & ->%elem_of_singleton) | ?]; [by left | by right].
    + intros [[-> ->] | ?]; [left | by right].
      exists {[module]}. split; [done | set_solver].
  - rewrite Hfail. by setoid_rewrite (set_iter_elem set_iter set_iter_perm).
  - intros dep. rewrite Hlog, list_elem_of_fmap. split.
    + intros (d & [= <-] & [Hd Hn]%elem_of_filter_bool).
      apply bool_decide_eq_true in Hn.
      by apply (set_iter_elem set_iter set_iter_perm) in Hd.
    + intros [Hd Hn]. exists dep. split; [done |].
      apply elem_of_filter_bool. split.
      * by apply (set_iter_elem set_iter set_iter_perm).
      * by apply bool_decide_eq_true.
  - rewrite Hlog. generalize (List.filter
      (fun dep => bool_decide (g_node g dep = None)) (set_iter deps)).
    intros l. by induction l.
Qed.
End IncludeFacts.

(** ** The checks that stop the command before line 230 *)

Section Validation.
Variable cwd : string.
Variable set_iter : gset string -> list string.
Hypothesis set_iter_perm : iteration_order set_iter.
Variable dag_longest_path : Graph -> gset string -> option (list string).

Local Abbreviation run := (whitelist cwd set_iter dag_longest_path).

Lemma startswith_contains p s : startswith p s = true -> contains p s = true.
Proof. intros H. destruct s; simpl; by rewrite H. Qed.

Lemma warn_path_length_no_write g deps log :
  _warn_path_length dag_longest_path g deps = Some log ->
  List.filter is_write log = [].
Proof.
  unfold _warn_path_length. destruct (dag_longest_path g deps); [|done].
  by destruct (Nat.ltb _ _); intros [= <-].
Qed.

Lemma g_node_none_not_in g m : m ∉ graph_iter g -> g_node g m = None.
Proof.
  intros Hm. destruct (g_node g m) eqn:E; [|done].
  by apply g_node_in_graph in E.
Qed.

(** C6.  When the target is no node of the graph, or is a node whose
    attribute dictionary is empty, the command ends with a status other than
    0 and leaves the disk as it found it: no file is changed and nothing is
    written.  Inside a work tree it exits with code 1, after the message for
    an unknown module in the first case and for a missing one in the
    second. *)
Theorem unknown_or_undefined_target_fails fuel inside_work_tree g fs module
    skip_native :
  module ∉ graph_iter g \/ g_node g module = None ->
  exists r,
    run fuel inside_work_tree g fs module skip_native = Some r
    /\ exit_status (res_outcome r) <> 0%Z
    /\ no_mutation fs r
    /\ (inside_work_tree = true ->
          res_outcome r = Exit (ExitCode 1)
          /\ res_log r = if bool_decide (module ∈ graph_iter g)
                         then [MissingModule module]
                         else [UnknownModule module]).
Proof.
  intros H. assert (g_node g module = None) as Hnode
    by (destruct H; [by apply g_node_none_not_in | done]).
  unfold whitelist. destruct inside_work_tree; simpl.
  - unfold ancestors. case_bool_decide.
    + rewrite Hnode. eexists. split; [done |]. by repeat split.
    + eexists. split; [done |]. by repeat split.
  - eexists. split; [done |]. by repeat split.
Qed.

(** C7.  With native modules skipped, the prefix being [vendor/odoo]: every
    module in an entry of [include], the target apart, is a known module
    filed under its own namespace, and that namespace does not start with the
    prefix.  And when the target's own namespace starts with the prefix, the
    command is rejected: it ends with a status other than 0 and leaves the
    disk as it found it; inside a work tree and on an acyclic graph it does so
    through [exit] with the message of line 204. *)
Theorem namespace_exclusion fuel inside_work_tree g fs module node deps :
  g_node g module = Some node ->
  (forall ns X m,
     (ns, X) ∈ (build_include set_iter g true module node deps).1.1 ->
     m ∈ X -> m <> module ->
     exists n, g_node g m = Some n /\ namespace n = ns
       /\ startswith NATIVE (namespace n) = false)
  /\ (startswith NATIVE (namespace node) = true ->
      exists r,
        run fuel inside_work_tree g fs module true = Some r
        /\ exit_status (res_outcome r) <> 0%Z
        /\ no_mutation fs r
        /\ (inside_work_tree = true ->
            forall deps', ancestors g module = Some deps' ->
            is_Some (dag_longest_path g deps') ->
            exists msg, res_outcome r = Exit (ExitText msg))).
Proof.
  intros Hnode. split.
  - intros ns X m Hin Hm Hne.
    destruct (build_include_spec set_iter set_iter_perm g true module node deps)
      as (Hhas & _).
    destruct (proj1 (Hhas ns m) (ex_intro _ X (conj Hin Hm)))
      as [[_ ->] | [_ Hw]]; [done |].
    unfold wanted in Hw. destruct (g_node g m) as [n|]; [|done].
    simpl in Hw. destruct (contains "vendor/odoo" (namespace n)) eqn:Hc; [done |].
    injection Hw as <-. exists n. split; [done |]. split; [done |].
    destruct (startswith NATIVE (namespace n)) eqn:Hs; [|done].
    apply startswith_contains in Hs. unfold NATIVE in Hs. congruence.
  - intros Hnative. apply startswith_contains in Hnative. unfold NATIVE in Hnative.
    unfold whitelist. destruct inside_work_tree; simpl.
    + destruct (ancestors g module) as [deps'|] eqn:Hanc.
      * rewrite Hnode.
        destruct (_warn_path_length dag_longest_path g deps') as [log0|] eqn:Hw.
        -- rewrite Hnative. eexists. split; [done |]. split; [done |].
           split; [split; [done | by eapply warn_path_length_no_write] |].
           intros _ ? [= <-] _. by eexists.
        -- eexists. split; [done |]. split; [done |]. split; [done |].
           intros _ ? [= <-] [longest Hl]. unfold _warn_path_length in Hw.
           rewrite Hl in Hw. by destruct (Nat.ltb _ _).
      * apply ancestors_none in Hanc. by apply g_node_in_graph in Hnode.
    + eexists. split; [done |]. by repeat split.
Qed.

(** C5.  When some transitive dependency [z] of the target has an empty
    attribute dictionary, the command ends with a status other than 0 and
    leaves the disk as it found it.  When it reaches the loop over the
    closure (inside a work tree, target known and not rejected as native,
    graph acyclic), it exits with code 1 and its log holds a
    [MissingDependency] message for every such dependency of the closure,
    not for the first one only. *)
Theorem undefined_dependency_aborts fuel inside_work_tree g fs module
    skip_native z :
  transitive_dependency g module z -> g_node g z = None ->
  exists r,
    run fuel inside_work_tree g fs module skip_native = Some r
    /\ exit_status (res_outcome r) <> 0%Z
    /\ no_mutation fs r
    /\ (inside_work_tree = true ->
        forall node deps,
          g_node g module = Some node -> ancestors g module = Some deps ->
          is_Some (dag_longest_path g deps) ->
          skip_native && contains NATIVE (namespace node) = false ->
          res_outcome r = Exit (ExitCode 1)
          /\ forall z', transitive_dependency g module z' ->
               g_node g z' = None -> MissingDependency z' ∈ res_log r).
Proof.
  intros Hdep Hz. unfold whitelist. destruct inside_work_tree; simpl;
    [|eexists; split; [done |]; by repeat split].
  destruct (ancestors g module) as [deps|] eqn:Hanc;
    [|eexists; split; [done |]; by repeat split].
  destruct (g_node g module) as [node|] eqn:Hnode;
    [|eexists; split; [done |]; by repeat split].
  destruct (ancestors_spec g module deps Hanc) as [_ Hdeps].
  destruct (_warn_path_length dag_longest_path g deps) as [log0|] eqn:Hw.
  2:{ eexists. split; [done |]. split; [done |]. split; [done |].
      intros _ ? ? [= <-] [= <-] [longest Hl]. unfold _warn_path_length in Hw.
      rewrite Hl in Hw. by destruct (Nat.ltb _ _). }
  destruct (skip_native && contains "vendor/odoo" (namespace node)) eqn:Hnat.
  { eexists. split; [done |]. split; [done |].
    split; [split; [done | by eapply warn_path_length_no_write] |].
    intros _ ? ? [= <-] [= <-] _ Hn. unfold NATIVE in Hn. congruence. }
  destruct (build_include_spec set_iter set_iter_perm g skip_native module node deps)
    as (_ & Hfail & Hlog & Hnw).
  destruct (build_include set_iter g skip_native module node deps)
    as [[include fail] log1].
  simpl in Hfail, Hlog, Hnw.
  assert (z ∈ deps) as Hzd.
  { apply Hdeps. split; [|done]. intros ->. congruence. }
  rewrite (proj2 Hfail (ex_intro _ z (conj Hzd Hz))).
  eexists. split; [done |]. split; [done |]. split.
  - split; [done |]. simpl. rewrite List.filter_app, Hnw.
    by rewrite (warn_path_length_no_write _ _ _ Hw).
  - intros _ ? ? [= <-] [= <-] _ _. split; [done |].
    intros z' Hdep' Hz'. simpl. apply elem_of_app. right. apply Hlog.
    split; [|done]. apply Hdeps. split; [|done]. intros ->. congruence.
Qed.
End Validation.

(** ** [partition] and the path functions on a whitelist path *)

Section PartitionFacts.
Lemma strip_prefix_app p s : strip_prefix p (p +:+ s) = Some s.
Proof.
  induction p as [|a p IH]; [done |].
  rewrite append_cons. simpl. by rewrite Ascii.eqb_refl.
Qed.

Lemma length_append (s t : string) :
  String.length (s +:+ t) = String.length s + String.length t.
Proof.
  induction s as [|a s IH]; [done |]. rewrite append_cons. simpl. by rewrite IH.
Qed.

Lemma strip_prefix_none_app p x y :
  String.length p <= String.length x ->
  strip_prefix p x = None -> strip_prefix p (x +:+ y) = None.
Proof.
  revert x. induction p as [|a p IH]; intros x Hlen; [done |].
  destruct x as [|b x]; [simpl in Hlen; lia |].
  rewrite append_cons. simpl. destruct (Ascii.eqb a b); [|done].
  apply IH. simpl in Hlen. lia.
Qed.

Lemma contains_false_cons sub c s :
  contains sub (String c s) = false ->
  strip_prefix sub (String c s) = None /\ contains sub s = false.
Proof.
  simpl. intros [H1 H2]%orb_false_iff. split; [|done].
  unfold startswith in H1. by destruct (strip_prefix _ _).
Qed.

Lemma partition_not_found sep s :
  contains sep s = false -> partition sep s = (s, "", "").
Proof.
  induction s as [|c s IH]; intros H.
  - destruct sep; [done |]. reflexivity.
  - apply contains_false_cons in H as [H1 H2]. cbn [partition].
    rewrite H1, (IH H2). done.
Qed.

Lemma partition_here sep s after :
  strip_prefix sep s = Some after -> partition sep s = ("", sep, after).
Proof. intros H. destruct s; cbn [partition]; by rewrite H. Qed.

Lemma vendor_split before after :
  before +:+ "vendor" +:+ after = (before +:+ "vendo") +:+ "r" +:+ after.
Proof. by rewrite append_assoc. Qed.

Lemma partition_vendor before after :
  contains "vendor" (before +:+ "vendo") = false ->
  partition "vendor" (before +:+ "vendor" +:+ after) = (before, "vendor", after).
Proof.
  induction before as [|c before IH]; intros H.
  - rewrite append_nil_l. apply partition_here, strip_prefix_app.
  - change (String c before +:+ "vendo") with (String c (before +:+ "vendo")) in H.
    apply contains_false_cons in H as [H1 H2].
    change (String c before +:+ "vendor" +:+ after)
      with (String c (before +:+ "vendor" +:+ after)).
    cbn [partition]. rewrite (IH H2).
    rewrite vendor_split.
    change (String c ((before +:+ "vendo") +:+ "r" +:+ after))
      with (String c (before +:+ "vendo") +:+ "r" +:+ after).
    rewrite strip_prefix_none_app; [done | | done].
    simpl. rewrite length_append. simpl. lia.
Qed.
End PartitionFacts.

(** C10.  The namespace recovered from a whitelist path is
    [join(dirname(p), basename(p).lstrip("."))] for [p] the path from its
    first occurrence of [vendor] on (with all leading dots of the base name
    stripped); a path that does not contain [vendor] gives the empty string,
    so that for such a whitelist file the recovered namespace differs from
    the (non-empty) namespace [ns] it was created for.  So the whitelist
    file of [vendor/acme] under [/repo] gives back [vendor/acme], and that
    of [addons/acme] gives the empty string. *)
Theorem namespace_recovered_at_vendor (cwd : string) :
  (forall before after,
     contains "vendor" (before +:+ "vendo") = false ->
     _get_ns_from_sparse_persistence_file (before +:+ "vendor" +:+ after)
     = PosixPath.join (PosixPath.dirname ("vendor" +:+ after))
         (lstrip_dots (PosixPath.basename ("vendor" +:+ after))))
  /\ (forall ns_path,
        contains "vendor" ns_path = false ->
        _get_ns_from_sparse_persistence_file ns_path = "")
  /\ (forall ns,
        ns <> "" ->
        contains "vendor" (_get_sparse_persistence_file cwd ns) = false ->
        _get_ns_from_sparse_persistence_file (_get_sparse_persistence_file cwd ns)
        <> ns)
  /\ _get_ns_from_sparse_persistence_file
       (_get_sparse_persistence_file "/repo" "vendor/acme") = "vendor/acme"
  /\ _get_ns_from_sparse_persistence_file
       (_get_sparse_persistence_file "/repo" "addons/acme") = "".
Proof.
  assert (forall ns_path, contains "vendor" ns_path = false ->
            _get_ns_from_sparse_persistence_file ns_path = "") as Hnone.
  { intros ns_path H. unfold _get_ns_from_sparse_persistence_file.
    by rewrite partition_not_found. }
  split; [|split; [done |split; [|split; by vm_compute]]].
  - intros before after H. unfold _get_ns_from_sparse_persistence_file.
    by rewrite partition_vendor.
  - intros ns Hne H. by rewrite Hnone.
Qed.

(** ** The fragment generated for one whitelist file *)

Section FragmentFacts.
Variable cwd : string.
Variable set_iter : gset string -> list string.
Hypothesis set_iter_perm : iteration_order set_iter.

Lemma unlines_app l1 l2 : unlines (l1 ++ l2) = unlines l1 +:+ unlines l2.
Proof.
  induction l1 as [|x l1 IH]; [done |]. simpl.
  by rewrite IH, !append_assoc.
Qed.




Lemma keep_until_marker_none lines :
  Forall (fun l => contains DOCKERIGNORE_PLACEHOLDER l = false) lines ->
  keep_until_marker lines = unlines lines.
Proof.
  induction 1 as [|l lines Hl Hls IH]; [done |].
  cbn [keep_until_marker unlines]. by rewrite Hl, IH.
Qed.


End FragmentFacts.

(** ** The rewrite of the ignore file *)

Section Regeneration.
Variable cwd : string.
Variable set_iter : gset string -> list string.
Hypothesis set_iter_perm : iteration_order set_iter.




End Regeneration.


Lemma iteration_order_elements : iteration_order elements.
Proof. intros X. reflexivity. Qed.

(** C2 fails as stated: [base], a known module whose namespace has no
    whitelist file, is in [all_white_listed], and no file holds it. *)
Lemma all_white_listed_beyond_files :
  "base" ∈ all_white_listed "/repo" elements native_graph native_files
  /\ map_Forall (fun _ content => "base" ∉ splitlines content) native_files.
Proof.
  split.
  - compute_done.
  - apply map_Forall_singleton. compute_done.
Qed.


(** ** What a pass of [_reconcile_auto_install] sees and writes *)

Section AutoInstallPasses.
Variable cwd : string.
Variable set_iter : gset string -> list string.
Local Abbreviation path := (_get_sparse_persistence_file cwd).
Implicit Types fs : Files.



Hypothesis set_iter_perm : iteration_order set_iter.

(** C2, as the code has it.  [all_white_listed] holds exactly the known
    modules whose namespace has no whitelist file (lines 101 and 102)
    together with the lines of the whitelist file of every known module's
    namespace that has one. *)
Theorem all_white_listed_members g fs x :
  x ∈ all_white_listed cwd set_iter g fs <->
  (exists node, g_node g x = Some node
     /\ isfile fs (path (namespace node)) = false)
  \/ (exists module node, g_node g module = Some node
     /\ isfile fs (path (namespace node)) = true
     /\ x ∈ read_lines fs (path (namespace node))).
Proof. by apply elem_of_all_white_listed. Qed.


End AutoInstallPasses.

(** ** Files that hold the same whitelists *)

Section AgreeFacts.
Variable cwd : string.
Local Abbreviation path := (_get_sparse_persistence_file cwd).
Implicit Types fs : Files.



Lemma agree_sym g fs fs' : agree cwd g fs fs' -> agree cwd g fs' fs.
Proof. intros H m node E. symmetry. by eapply H. Qed.








End AgreeFacts.

(** ** The part of the ignore file that a rewrite keeps *)

Section MarkerFacts.
Variable cwd : string.
Local Abbreviation path := (_get_sparse_persistence_file cwd).
Implicit Types fs : Files.

Lemma include_add_inhabited ns dep include :
  Forall (fun e : string * gset string => exists m, m ∈ e.2) include ->
  Forall (fun e : string * gset string => exists m, m ∈ e.2)
         (include_add ns dep include).
Proof.
  induction 1 as [|[k v] rest [m Hm] Hrest IH]; simpl.
  - constructor; [|done]. exists dep. set_solver.
  - destruct (String.eqb k ns).
    + constructor; [|done]. exists m. set_solver.
    + constructor; [by exists m | done].
Qed.

End MarkerFacts.

(** ** The whole loop of lines 230 to 245 *)

Section SeedStage.
Variable cwd : string.
Variable set_iter : gset string -> list string.
Hypothesis set_iter_perm : iteration_order set_iter.
Local Abbreviation path := (_get_sparse_persistence_file cwd).
Implicit Types fs : Files.

Lemma build_include_inhabited g skip_native module node deps :
  Forall (fun e : string * gset string => exists m, m ∈ e.2)
         (build_include set_iter g skip_native module node deps).1.1.
Proof.
  unfold build_include.
  apply (fold_left_inv
           (fun st : list (string * gset string) * bool * list event =>
              Forall (fun e : string * gset string => exists m, m ∈ e.2) st.1.1)).
  - repeat constructor. exists module. set_solver.
  - intros [[include fail] log] dep _ H. unfold include_step.
    destruct (g_node g dep) as [n|]; [|done].
    destruct (skip_native && _); [done |]. by apply include_add_inhabited.
Qed.

(** Every entry of [include] files known modules under their namespace. *)
Lemma build_include_known g skip_native module node deps ns X :
  g_node g module = Some node ->
  (ns, X) ∈ (build_include set_iter g skip_native module node deps).1.1 ->
  (exists m n, g_node g m = Some n /\ namespace n = ns)
  /\ forall x, x ∈ X -> exists n, g_node g x = Some n /\ namespace n = ns.
Proof.
  intros Hnode Hin.
  destruct (build_include_spec set_iter set_iter_perm g skip_native module node deps)
    as (Hhas & _).
  assert (forall x, x ∈ X -> exists n, g_node g x = Some n /\ namespace n = ns) as Hall.
  { intros x Hx.
    destruct (proj1 (Hhas ns x) (ex_intro _ X (conj Hin Hx))) as [[-> ->] | [_ Hw]].
    - by exists node.
    - unfold wanted in Hw. destruct (g_node g x) as [n|]; [|done].
      exists n. split; [done |]. by destruct (skip_native && _); simplify_eq. }
  split; [|done].
  pose proof (build_include_inhabited g skip_native module node deps) as Hne.
  rewrite Forall_forall in Hne. destruct (Hne _ Hin) as [m Hm].
  destruct (Hall m Hm) as (n & ?). by exists m, n.
Qed.

(** The seed stage files every required entry and only appends to
    whitelist files. *)
Lemma seed_whitelists_spec g include fs :
  names_single_line g = true ->
  whitelists_terminated cwd g fs = true ->
  (forall ns X, (ns, X) ∈ include ->
     (exists m n, g_node g m = Some n /\ namespace n = ns)
     /\ forall x, x ∈ X -> x ∈ graph_iter g) ->
  let st := seed_whitelists cwd set_iter include fs in
  extends cwd g fs st.1
  /\ forall ns X x, (ns, X) ∈ include -> x ∈ X ∪ {[SETUP]} ->
       x ∈ read_lines st.1 (path ns).
Proof.
  intros Hnames Hok. unfold seed_whitelists.
  induction include as [|[ns X] include IH] using rev_ind; intros Hknown.
  - simpl. split; [by apply extends_refl |]. intros ns X x H. inversion H.
  - rewrite fold_left_app. cbn [fold_left]. cbv zeta in IH.
    destruct IH as [Hext Hin].
    { intros ns' X' H. apply Hknown, elem_of_app. by left. }
    destruct (fold_left _ include _) as [fs0 log0]. simpl in Hext, Hin.
    destruct (Hknown ns X ltac:(apply elem_of_app; right; by left))
      as [(m & n & E & <-) HX].
    pose proof (proj1 (whitelists_terminated_spec cwd g fs0)
                  (ext_terminated _ _ _ _ Hext)) as Hterm.
    assert (set_single_line X = true) as HsX.
    { unfold set_single_line. apply forallb_forall. intros x Hx.
      apply list_elem_of_In, elem_of_elements in Hx.
      eapply names_single_line_spec; eauto. }
    pose proof (seed_step_lines cwd set_iter set_iter_perm fs0 log0
                  (namespace n) X (Hterm _ _ E) HsX)
      as (Hlines & Ht' & Hother & Hfile & _).
    cbv zeta in Hlines, Ht', Hother, Hfile.
    set (st := seed_step cwd set_iter (fs0, log0) (namespace n, X)) in *.
    assert (extends cwd g fs0 st.1) as Hext'.
    { split.
      - done.
      - intros p x Hx. destruct (decide (p = path (namespace n))) as [-> | Hne].
        + rewrite Hlines. apply elem_of_app. by left.
        + unfold read_lines in *. by rewrite Hother.
      - intros p Hp. apply Hother. intros ->. by eapply Hp.
      - apply whitelists_terminated_spec. intros m' n' E'.
        destruct (decide (path (namespace n') = path (namespace n))) as [-> | Hne];
          [done |].
        rewrite Hother by done. by eapply Hterm. }
    split; [by eapply extends_trans |].
    intros ns' X' x [Hin' | [= -> ->]%list_elem_of_singleton]%elem_of_app Hx.
    + apply (ext_lines _ _ _ _ Hext'). by eapply Hin.
    + rewrite Hlines. apply elem_of_app.
      destruct (decide (x ∈ read_lines fs0 (path (namespace n)))) as [? | Hnot];
        [by left | right].
      apply (set_iter_elem set_iter set_iter_perm). unfold missing_entries.
      set_solver.
Qed.

End SeedStage.

(** ** Lines 230 to 252, run twice *)

Section TwoRuns.
Variable cwd : string.
Variables it1 it2 : gset string -> list string.
Hypothesis it1_perm : iteration_order it1.
Hypothesis it2_perm : iteration_order it2.
Local Abbreviation path := (_get_sparse_persistence_file cwd).
Local Abbreviation ignore := (dockerignore_path cwd).
Implicit Types fs : Files.

Lemma ignore_file_apart_spec g m node :
  ignore_file_apart cwd g = true -> g_node g m = Some node ->
  path (namespace node) <> ignore.
Proof.
  unfold ignore_file_apart. rewrite forallb_forall. intros H E Heq.
  specialize (H m ltac:(by eapply list_elem_of_In, g_node_in_graph)).
  rewrite E in H. apply negb_true_iff, String.eqb_neq in H. done.
Qed.






End TwoRuns.

(** ** The command, run twice *)

Section TwoCommandRuns.
Variable cwd : string.
Variable dag_longest_path : Graph -> gset string -> option (list string).
Variables it1 it2 : gset string -> list string.
Hypothesis it1_perm : iteration_order it1.
Hypothesis it2_perm : iteration_order it2.
Local Abbreviation path := (_get_sparse_persistence_file cwd).
Local Abbreviation ignore := (dockerignore_path cwd).
Implicit Types fs : Files.

Lemma no_write_no_append (log : list event) :
  List.filter is_write log = [] -> List.filter is_append log = [].
Proof.
  induction log as [|e log IH]; [done |]. simpl.
  destruct e; simpl; try done; auto.
Qed.

Local Ltac stop_log := eexists; split; [|reflexivity]; done.

(** Whether the command stops before line 230 depends on neither the
    files, the iteration order nor the fuel. *)
Lemma whitelist_cases inside_work_tree g module skip_native :
  (exists o, o <> Returned
     /\ forall it fuel fs, iteration_order it ->
          exists log, List.filter is_append log = []
            /\ whitelist cwd it dag_longest_path fuel inside_work_tree g fs
                 module skip_native
               = Some {| res_outcome := o; res_files := fs; res_log := log |})
  \/ (exists node deps log0,
        g_node g module = Some node /\ List.filter is_append log0 = []
        /\ forall it fuel fs, iteration_order it ->
             (build_include it g skip_native module node deps).1.2 = false
             /\ whitelist cwd it dag_longest_path fuel inside_work_tree g fs
                  module skip_native
                = reconcile cwd it fuel g
                    (build_include it g skip_native module node deps).1.1 fs
                    (log0 ++ (build_include it g skip_native module node deps).2)).
Proof.
  unfold whitelist. destruct inside_work_tree; simpl;
    [|left; eexists; split; [|intros; stop_log]; done].
  destruct (ancestors g module) as [deps|];
    [|left; eexists; split; [|intros; stop_log]; done].
  destruct (g_node g module) as [node|] eqn:Hnode;
    [|left; eexists; split; [|intros; stop_log]; done].
  destruct (_warn_path_length dag_longest_path g deps) as [log0|] eqn:Hw;
    [|left; eexists; split; [|intros; stop_log]; done].
  pose proof (no_write_no_append _ (warn_path_length_no_write _ _ _ _ Hw)) as Hlog0.
  destruct (skip_native && contains "vendor/odoo" (namespace node));
    [left; eexists; split; [|intros; stop_log]; done |].
  destruct (decide (exists dep, dep ∈ deps /\ g_node g dep = None)) as [Hex | Hnex].
  - left. exists (Exit (ExitCode 1)). split; [done |]. intros it fuel fs Hit.
    destruct (build_include_spec it Hit g skip_native module node deps)
      as (_ & Hfail & _ & Hnw).
    destruct (build_include it g skip_native module node deps)
      as [[include fail] log1]. simpl in *.
    rewrite (proj2 Hfail Hex). exists (log0 ++ log1). split; [|done].
    by rewrite List.filter_app, Hlog0, (no_write_no_append _ Hnw).
  - right. exists node, deps, log0. split; [done |]. split; [done |].
    intros it fuel fs Hit.
    destruct (build_include_spec it Hit g skip_native module node deps)
      as (_ & Hfail & _).
    destruct (build_include it g skip_native module node deps)
      as [[include fail] log1]. simpl in *.
    destruct fail; [|done]. exfalso. by apply Hnex, Hfail.
Qed.

End TwoCommandRuns.

(** ** Whitelist files only grow *)

Section AppendOnly.
Variable cwd : string.
Variable set_iter : gset string -> list string.
Hypothesis set_iter_perm : iteration_order set_iter.
Variable dag_longest_path : Graph -> gset string -> option (list string).
Implicit Types fs : Files.

Lemma reconcile_loop_extends fuel g fs fs' log :
  names_single_line g = true ->
  whitelists_terminated cwd g fs = true ->
  reconcile_loop cwd set_iter fuel g fs = Some (fs', log) ->
  extends cwd g fs fs'.
Proof.
  intros Hnames. revert fs fs' log.
  induction fuel as [|fuel IH]; intros fs fs' log Hok Hloop; [done |].
  cbn [reconcile_loop] in Hloop.
  destruct (reconcile_pass_spec cwd set_iter g fs Hnames Hok)
    as (ch & fs1 & log1 & Heq & Hext & _).
  rewrite Heq in Hloop. destruct ch.
  - destruct (reconcile_loop cwd set_iter fuel g fs1) as [[fs2 log2]|] eqn:E;
      [|done].
    injection Hloop as <- <-. eapply extends_trans; [done |].
    eapply IH; [|done]. by apply (ext_terminated _ _ _ _ Hext).
  - by injection Hloop as <- <-.
Qed.

(** X3.  The command never removes an entry from a whitelist file and keeps
    the format of whitelist files: when no module name holds a line break,
    every whitelist file is empty or ends in LF and the ignore file is no
    namespace's whitelist file, then after a run, however it ends, every
    whitelist file is again empty or ends in LF, and every line that was
    on a file other than the ignore file is still a line of that file. *)
Theorem whitelist_files_only_grow fuel inside_work_tree g fs module
    skip_native r :
  names_single_line g = true ->
  whitelists_terminated cwd g fs = true ->
  ignore_file_apart cwd g = true ->
  whitelist cwd set_iter dag_longest_path fuel inside_work_tree g fs module
    skip_native = Some r ->
  whitelists_terminated cwd g (res_files r) = true
  /\ forall p x, p <> dockerignore_path cwd ->
       x ∈ read_lines fs p -> x ∈ read_lines (res_files r) p.
Proof.
  intros Hnames Hok Hap Hrun.
  destruct (whitelist_cases cwd dag_longest_path inside_work_tree g module
              skip_native)
    as [(o & Ho & Hstop) | (node & deps & log0 & Hnode & Hlog0 & Hgo)].
  - destruct (Hstop set_iter fuel fs set_iter_perm) as (log & _ & Heq).
    rewrite Heq in Hrun. injection Hrun as <-. done.
  - destruct (Hgo set_iter fuel fs set_iter_perm) as [_ Heq].
    rewrite Heq in Hrun. clear Heq. unfold reconcile in Hrun.
    pose proof (fun ns X => build_include_known set_iter set_iter_perm g
                  skip_native module node deps ns X Hnode) as Hk.
    destruct (seed_whitelists_spec cwd set_iter set_iter_perm g
                (build_include set_iter g skip_native module node deps).1.1 fs
                Hnames Hok) as [Hext1 _].
    { intros ns X Hin. destruct (Hk ns X Hin) as [Hns HX]. split; [done |].
      intros x Hx. destruct (HX x Hx) as (n & E & _). by eapply g_node_in_graph. }
    destruct (seed_whitelists cwd set_iter _ fs) as [fs1 log1].
    simpl in Hext1.
    destruct (reconcile_loop cwd set_iter fuel g fs1) as [[fs2 log2]|] eqn:Hloop;
      [|done].
    pose proof (reconcile_loop_extends fuel g fs1 fs2 log2 Hnames
                  (ext_terminated _ _ _ _ Hext1) Hloop) as Hext2.
    pose proof (extends_trans cwd g fs fs1 fs2 Hext1 Hext2) as Hext.
    unfold reconcile_dockerignore_placeholder in Hrun.
    destruct (fs2 !! dockerignore_path cwd) as [content|].
    + injection Hrun as <-. cbn [res_files]. split.
      * apply whitelists_terminated_spec. intros m n E.
        rewrite lookup_insert_ne
          by (intros Heq; by eapply (ignore_file_apart_spec cwd g m n)).
        by eapply (proj1 (whitelists_terminated_spec cwd g fs2)
                     (ext_terminated _ _ _ _ Hext)).
      * intros p x Hp Hx. unfold read_lines. rewrite lookup_insert_ne by done.
        by apply (ext_lines _ _ _ _ Hext).
    + injection Hrun as <-. cbn [res_files]. split.
      * by apply (ext_terminated _ _ _ _ Hext).
      * intros p x _. by apply (ext_lines _ _ _ _ Hext).
Qed.
End AppendOnly.




Lemma all_white_listed_members_witness :
  iteration_order elements
  /\ ("base" ∈ all_white_listed "/repo" elements native_graph native_files <->
      (exists node, g_node native_graph "base" = Some node
         /\ isfile native_files
              (_get_sparse_persistence_file "/repo" (namespace node)) = false)
      \/ (exists module node, g_node native_graph module = Some node
         /\ isfile native_files
              (_get_sparse_persistence_file "/repo" (namespace node)) = true
         /\ "base" ∈ read_lines native_files
              (_get_sparse_persistence_file "/repo" (namespace node)))).
Proof.
  split; [apply iteration_order_elements |].
  apply (all_white_listed_members "/repo" elements iteration_order_elements
           native_graph native_files "base").
Defined.



Lemma undefined_dependency_aborts_witness :
  iteration_order elements
  /\ transitive_dependency ghost_graph "mod_a" "ghost"
  /\ g_node ghost_graph "ghost" = None
  /\ exists r,
       whitelist "/repo" elements no_long_path 1 true ghost_graph pair_files
         "mod_a" true = Some r
       /\ exit_status (res_outcome r) <> 0%Z
       /\ no_mutation pair_files r.
Proof.
  assert (transitive_dependency ghost_graph "mod_a" "ghost") as Hdep.
  { apply tc_once. left. }
  split; [apply iteration_order_elements |]. split; [exact Hdep |].
  split; [reflexivity |].
  destruct (undefined_dependency_aborts "/repo" elements iteration_order_elements
              no_long_path 1 true ghost_graph pair_files "mod_a" true "ghost"
              Hdep eq_refl) as (r & Hr & Hstatus & Hmut & _).
  exists r. repeat split; (assumption || apply Hmut).
Defined.

Lemma unknown_or_undefined_target_fails_witness :
  ("nowhere" ∉ graph_iter ghost_graph \/ g_node ghost_graph "nowhere" = None)
  /\ exists r,
       whitelist "/repo" elements no_long_path 1 true ghost_graph pair_files
         "nowhere" true = Some r
       /\ exit_status (res_outcome r) <> 0%Z
       /\ no_mutation pair_files r.
Proof.
  assert ("nowhere" ∉ graph_iter ghost_graph \/ g_node ghost_graph "nowhere" = None)
    as H by (right; reflexivity).
  split; [exact H |].
  destruct (unknown_or_undefined_target_fails "/repo" elements no_long_path 1 true
              ghost_graph pair_files "nowhere" true H)
    as (r & Hr & Hstatus & Hmut & _).
  exists r. repeat split; (assumption || apply Hmut).
Defined.

Lemma namespace_exclusion_witness :
  iteration_order elements
  /\ g_node native_graph "base" = mk_node "vendor/odoo/addons" false []
  /\ startswith NATIVE "vendor/odoo/addons" = true
  /\ exists r,
       whitelist "/repo" elements no_long_path 1 true native_graph native_files
         "base" true = Some r
       /\ exit_status (res_outcome r) <> 0%Z
       /\ no_mutation native_files r.
Proof.
  split; [apply iteration_order_elements |]. split; [reflexivity |].
  split; [reflexivity |].
  destruct (proj2 (namespace_exclusion "/repo" elements iteration_order_elements
                     no_long_path 1 true native_graph native_files "base" _ ∅
                     eq_refl) eq_refl)
    as (r & Hr & Hstatus & Hmut & _).
  exists r. repeat split; (assumption || apply Hmut).
Defined.


(** X1.  Every module in an entry of [include] is the target or a
    transitive dependency of the target. *)
Theorem include_within_closure (set_iter : gset string -> list string)
    (g : Graph) (skip_native : bool) (module : string) (node : ModuleNode)
    (deps : gset string) (ns : string) (X : gset string) (m : string) :
  iteration_order set_iter ->
  ancestors g module = Some deps ->
  (ns, X) ∈ (build_include set_iter g skip_native module node deps).1.1 ->
  m ∈ X ->
  m = module \/ transitive_dependency g module m.
Proof.
  intros Hit Hanc Hin Hm.
  destruct (build_include_spec set_iter Hit g skip_native module node deps)
    as (Hhas & _).
  destruct (proj1 (Hhas ns m) (ex_intro _ X (conj Hin Hm))) as [[_ ->] | [Hd _]].
  - by left.
  - right. by apply (ancestors_spec g module deps Hanc).
Qed.

Lemma include_within_closure_witness :
  iteration_order elements
  /\ ancestors pair_graph "mod_b" = Some {["mod_a"]}
  /\ ("mod_a" = "mod_b" \/ transitive_dependency pair_graph "mod_b" "mod_a").
Proof.
  assert (ancestors pair_graph "mod_b" = Some {["mod_a"]}) as Hanc
    by (vm_compute; reflexivity).
  split; [apply iteration_order_elements |]. split; [exact Hanc |].
  apply (include_within_closure elements pair_graph true "mod_b"
           {| namespace := "vendor/acme";
              manifest := {| auto_install := false; depends := ["mod_a"] |} |}
           {["mod_a"]} "vendor/acme" {["mod_b"; "mod_a"]} "mod_a"
           iteration_order_elements Hanc).
  - vm_compute. left.
  - set_solver.
Defined.

(** X2.  On a chain of three auto-install modules of which only the first
    has its dependency on file, each pass files one more module: one after
    the first pass, two after the second, all three after the third; the
    loop needs a fourth pass to see that nothing is left to do. *)
Theorem chain_needs_three_passes :
  read_lines (after_passes "/repo" elements 1 chain3_graph chain3_files)
    "/repo/vendor/.acme" = ["base"; "!setup/**"; "a1"]
  /\ read_lines (after_passes "/repo" elements 2 chain3_graph chain3_files)
       "/repo/vendor/.acme" = ["base"; "!setup/**"; "a1"; "a2"]
  /\ read_lines (after_passes "/repo" elements 3 chain3_graph chain3_files)
       "/repo/vendor/.acme" = ["base"; "!setup/**"; "a1"; "a2"; "a3"]
  /\ reconcile_loop "/repo" elements 3 chain3_graph chain3_files = None
  /\ exists log,
       reconcile_loop "/repo" elements 4 chain3_graph chain3_files
       = Some (after_passes "/repo" elements 3 chain3_graph chain3_files, log).
Proof.
  split; [by vm_compute |]. split; [by vm_compute |]. split; [by vm_compute |].
  split; [by vm_compute |]. eexists. by vm_compute.
Qed.

Lemma whitelist_files_only_grow_witness :
  iteration_order elements
  /\ names_single_line pair_graph = true
  /\ whitelists_terminated "/repo" pair_graph pair_files = true
  /\ ignore_file_apart "/repo" pair_graph = true
  /\ exists r,
       whitelist "/repo" elements no_long_path 3 true pair_graph pair_files
         "mod_b" true = Some r
       /\ whitelists_terminated "/repo" pair_graph (res_files r) = true.
Proof.
  split; [apply iteration_order_elements |]. split; [reflexivity |].
  split; [reflexivity |]. split; [reflexivity |].
  eexists. split; [vm_compute; reflexivity |].
  refine (proj1 (whitelist_files_only_grow "/repo" elements
            iteration_order_elements no_long_path 3 true pair_graph pair_files
            "mod_b" true _ eq_refl eq_refl eq_refl _)).
  vm_compute. reflexivity.
Defined.

(** X4.  What the format of whitelist files is assumed for.  On a whitelist
    file whose last line, [mod_a], has no terminator, a first run for
    [mod_a] writes the setup pattern straight after that line: the file
    then reads [mod_a!setup/**], a single line, and the ignore file gets no
    negation line for [mod_a].  A second run finds neither entry on file
    and appends both. *)
Theorem unterminated_last_line_absorbs_entry :
  whitelists_terminated "/repo" pair_graph unterminated_files = false
  /\ exists r1 r2,
       whitelist "/repo" elements no_long_path 3 true pair_graph
         unterminated_files "mod_a" true = Some r1
       /\ res_outcome r1 = Returned
       /\ res_files r1 !! "/repo/vendor/.acme" = Some ("mod_a!setup/**" +:+ nl)
       /\ res_files r1 !! "/repo/.dockerignore"
          = Some (unlines [DOCKERIGNORE_PLACEHOLDER; "vendor/acme/**"])
       /\ whitelist "/repo" elements no_long_path 3 true pair_graph
            (res_files r1) "mod_a" true = Some r2
       /\ res_files r2 !! "/repo/vendor/.acme"
          = Some (unlines ["mod_a!setup/**"; "mod_a"; "!setup/**"])
       /\ res_files r2 !! "/repo/.dockerignore"
          = Some (unlines [DOCKERIGNORE_PLACEHOLDER; "vendor/acme/**";
                           "!vendor/acme/mod_a"]).
Proof.
  split; [done |]. eexists _, _.
  split; [by vm_compute |]. split; [done |]. split; [by vm_compute |].
  split; [by vm_compute |]. split; [by vm_compute |].
  split; by vm_compute.
Qed.
